(** * The Service / session layer and the Places client of descarteslabs-python

    A shallow embedding of [descarteslabs/services/service.py] and
    [descarteslabs/services/places.py], together with the parts of the Python
    run time and of the third-party libraries the two files rely on
    (attribute lookup, [random.uniform], [cachetools.keys.hashkey],
    [cachetools.TTLCache], [cachetools.cachedmethod]).

    Python objects are attribute dictionaries ([gmap string attr]); the
    process-wide state (the shared auth token, the random generator, the
    clock, the log of HTTP requests issued) is threaded explicitly through a
    small state-and-exception monad. *)

From stdpp Require Import base strings list gmap sorting pretty.
From Stdlib Require Import ZArith Lia.
From Stdlib Require SpecFloat.

Local Open Scope string_scope.
Local Open Scope list_scope.
Local Open Scope Z_scope.

(** ** Python values that travel as arguments *)

(** Arguments of the endpoint methods are [None] or strings, as the
    docstrings of [places.py] type them.  Both are hashable. *)
Inductive pyval :=
  | VNone
  | VStr (s : string).

Global Instance pyval_eq_dec : EqDecision pyval.
Proof. solve_decision. Defined.

(** Python truthiness: [None] and the empty string are falsy. *)
Definition truthy (v : pyval) : bool :=
  match v with
  | VNone => false
  | VStr s => negb (String.eqb s "")
  end.

(** [str(v)], as used by the [%s] conversions. *)
Definition py_str (v : pyval) : string :=
  match v with
  | VNone => "None"
  | VStr s => s
  end.

(** ** Exceptions

    The five kinds of [descarteslabs.exceptions] raised by
    [WrappedSession.request], each with the message it was constructed with,
    the exceptions of [requests] that its parent class lets through
    ([RetryError], [ConnectionError], [ReadTimeout], [InvalidSchema]), and
    the built-in exceptions the modelled code can raise. *)
Inductive exn :=
  | BadRequestError (msg : string)
  | NotFoundError (msg : string)
  | RateLimitError (msg : string)
  | GatewayTimeoutError (msg : string)
  | ServerError (msg : string)
  | AttributeError (name : string)
  | RuntimeError (msg : string)
  | TypeError (msg : string)
  | KeyError (msg : string)
  | ValueError (msg : string)
  | RetryError (msg : string)
  | ConnectionError (msg : string)
  | ReadTimeout (msg : string)
  | InvalidSchema (msg : string).

Global Instance exn_eq_dec : EqDecision exn.
Proof. solve_decision. Defined.

(** The error kind of an exception, without its message. *)
Inductive ErrorKind :=
  | BadRequest | NotFound | RateLimited | GatewayTimeout | ServerErr | Builtin.

Definition kind_of (e : exn) : ErrorKind :=
  match e with
  | BadRequestError _ => BadRequest
  | NotFoundError _ => NotFound
  | RateLimitError _ => RateLimited
  | GatewayTimeoutError _ => GatewayTimeout
  | ServerError _ => ServerErr
  | AttributeError _ | RuntimeError _ | TypeError _ | KeyError _
  | ValueError _ | RetryError _ | ConnectionError _ | ReadTimeout _
  | InvalidSchema _ => Builtin
  end.

Definition message_of (e : exn) : string :=
  match e with
  | BadRequestError m | NotFoundError m | RateLimitError m
  | GatewayTimeoutError m | ServerError m
  | AttributeError m | RuntimeError m | TypeError m | KeyError m
  | ValueError m | RetryError m | ConnectionError m | ReadTimeout m
  | InvalidSchema m => m
  end.

Inductive result (A : Type) :=
  | Ok (a : A)
  | Raise (e : exn).
Global Arguments Ok {A} a.
Global Arguments Raise {A} e.

(** ** HTTP requests and responses *)

(** The value of one query parameter: a string, or a list of strings (the
    [value] endpoint wraps single strings into lists). *)
Inductive param :=
  | POne (s : pyval)
  | PMany (l : list string).

(** [timeout=(connect, read)], in milliseconds:
    [(9.5, 30)] is [(9500, 30000)]. *)
Definition timeout_t : Type := Z * Z.

Record Request := {
  rq_method : string;
  rq_url : string;
  rq_params : option (list (string * param));
  rq_timeout : option timeout_t;
}.

Record Response := {
  status_code : Z;
  text : string;
}.

(** The keyword arguments [WrappedSession.request] looks at. *)
Record ReqKwargs := {
  kw_params : option (list (string * param));
  kw_timeout : option timeout_t;
}.


(** ** Binary64 arithmetic on the values [random.uniform] produces

    A finite double is [mant * 2^expo].  Every operation computes the exact
    result and rounds it to a 53-bit significand, to nearest with ties to
    even.  Exponent overflow and subnormals are left out: the numbers that
    occur here lie between [2^-53] and [4]. *)
Module Float64.

Record dyadic := Dy { mant : Z; expo : Z }.

Global Instance dyadic_eq_dec : EqDecision dyadic.
Proof. solve_decision. Defined.

Definition prec : Z := 53.

(** Round-to-nearest-even of a significand that is [d] bits too long. *)
Definition round (x : dyadic) : dyadic :=
  let a := Z.abs (mant x) in
  let d := Z.log2 a + 1 - prec in
  if d <=? 0 then x
  else
    let q := Z.shiftr a d in
    let r := a - Z.shiftl q d in
    let half := Z.shiftl 1 (d - 1) in
    let q' := if r <? half then q
              else if half <? r then q + 1
              else if Z.even q then q else q + 1 in
    Dy (Z.sgn (mant x) * q') (expo x + d).

(** The two operands brought to the smaller exponent. *)
Definition align (x y : dyadic) : Z * Z * Z :=
  let e := Z.min (expo x) (expo y) in
  (Z.shiftl (mant x) (expo x - e), Z.shiftl (mant y) (expo y - e), e).

Definition add (x y : dyadic) : dyadic :=
  let '(mx, my, e) := align x y in round (Dy (mx + my) e).

Definition sub (x y : dyadic) : dyadic :=
  let '(mx, my, e) := align x y in round (Dy (mx - my) e).

Definition mul (x y : dyadic) : dyadic :=
  round (Dy (mant x * mant y) (expo x + expo y)).

Definition leb (x y : dyadic) : bool :=
  let '(mx, my, _) := align x y in mx <=? my.

Definition ltb (x y : dyadic) : bool :=
  let '(mx, my, _) := align x y in mx <? my.

Definition of_Z (n : Z) : dyadic := round (Dy n 0).

(** The same number as a float of the Standard Library's specification of
    IEEE 754 arithmetic, for comparison with [SFadd] and [SFmul]. *)
Definition to_spec (x : dyadic) : SpecFloat.spec_float :=
  SpecFloat.binary_normalize 53 1024 (mant x) (expo x) false.

End Float64.

(** ** The [random] module

    CPython's generator is the Mersenne Twister; [mt] is the sequence of
    32-bit words it will produce and [pos] the number already consumed. *)
Module Random.
Import Float64.

Record Rng := { mt : nat → Z; pos : nat }.

Definition genrand_uint32 (g : Rng) : Z * Rng :=
  (mt g (pos g) mod 2 ^ 32, {| mt := mt g; pos := S (pos g) |}).

(** [random_random]:
    [a = genrand_uint32() >> 5; b = genrand_uint32() >> 6;
     return (a * 67108864.0 + b) * (1.0 / 9007199254740992.0)]. *)
Definition random (g : Rng) : dyadic * Rng :=
  let '(x, g) := genrand_uint32 g in
  let '(y, g) := genrand_uint32 g in
  let a := Z.shiftr x 5 in
  let b := Z.shiftr y 6 in
  (mul (add (mul (of_Z a) (of_Z 67108864)) (of_Z b)) (Dy 1 (-53)), g).

(** [uniform(a, b)]: [return a + (b - a) * self.random()]. *)
Definition uniform (a b : dyadic) (g : Rng) : dyadic * Rng :=
  let '(r, g) := random g in
  (add a (mul (sub b a) r), g).

End Random.

(** ** Decoded JSON bodies

    A decoded value is kept as the text it was decoded from; which texts
    decode is up to [json.loads], a component of the world. *)
Inductive JSON := Decoded (raw : string).

Global Instance JSON_eq_dec : EqDecision JSON.
Proof. solve_decision. Defined.

(** ** cachetools: [hashkey], [TTLCache] and [cachedmethod] *)
Module Cachetools.

(** One element of a key tuple: a value, or the private marker object
    [_kwmark] that separates positional from keyword arguments. *)
Inductive keyelem :=
  | KVal (v : pyval)
  | KMark.

Global Instance keyelem_eq_dec : EqDecision keyelem.
Proof. solve_decision. Defined.

Definition key : Type := list keyelem.

(** [kwargs.items()] in the order the dictionary yields them.  The keys of
    a dictionary are distinct, so comparing two items as tuples is decided
    by their keys. *)
Definition kwargs_t : Type := list (string * pyval).

Definition item_le (p q : string * pyval) : Prop := String.le p.1 q.1.

Global Instance item_le_dec : RelDecision item_le.
Proof. intros p q. unfold item_le. apply _. Defined.

(** [sorted(kwargs.items())]. *)
Definition sorted (kw : kwargs_t) : kwargs_t := merge_sort item_le kw.

(** [sum(items, _kwmark)]: the marker followed by each key and value. *)
Definition flatten (items : kwargs_t) : key :=
  KMark :: flat_map (λ kv, [KVal (VStr kv.1); KVal kv.2]) items.

(** [hashkey]: the positional arguments, followed, when there are keyword
    arguments, by [sum(sorted(kwargs.items()), _kwmark)]. *)
Definition hashkey (args : list pyval) (kwargs : kwargs_t) : key :=
  match kwargs with
  | [] => KVal <$> args
  | _ :: _ => (KVal <$> args) ++ flatten (sorted kwargs)
  end.

(** [partial(hashkey, name)]. *)
Definition partial_hashkey (name : string) (args : list pyval) (kwargs : kwargs_t) : key :=
  hashkey (VStr name :: args) kwargs.

(** Dictionaries keyed by key tuples, as association lists without
    repeated keys. *)
Fixpoint assoc {B} (k : key) (d : list (key * B)) : option B :=
  match d with
  | [] => None
  | (k', b) :: d => if decide (k' = k) then Some b else assoc k d
  end.

Definition remove_key {B} (k : key) (d : list (key * B)) : list (key * B) :=
  filter (λ kb, kb.1 ≠ k) d.

(** [TTLCache(maxsize, ttl)] with the default [getsizeof] (every value has
    size 1, so [currsize] is the number of items):
    [data] is [Cache.__data]; [links] is the [OrderedDict] [__links], its
    keys from least to most recently used, each with the [expire] time of
    its [_Link]; [chain] is the order of the links in the list hanging off
    [__root], oldest first. *)
Record TTLCache := {
  maxsize : Z;
  ttl : Z;
  data : list (key * JSON);
  links : list (key * Z);
  chain : list key;
}.

Global Instance TTLCache_eq_dec : EqDecision TTLCache.
Proof. solve_decision. Defined.

Definition empty (maxsize ttl : Z) : TTLCache :=
  {| maxsize := maxsize; ttl := ttl; data := []; links := []; chain := [] |}.

Definition currsize (c : TTLCache) : Z := Z.of_nat (length (data c)).

(** [Cache.__delitem__] and the unlinking that goes with it. *)
Definition delitem (k : key) (c : TTLCache) : TTLCache :=
  {| maxsize := maxsize c; ttl := ttl c;
     data := remove_key k (data c);
     links := remove_key k (links c);
     chain := filter (λ k', k' ≠ k) (chain c) |}.

(** [expire(time)]: walk the chain from its head while
    [curr.expire < time], deleting as it goes. *)
Fixpoint expired_prefix (time : Z) (lk : list (key * Z)) (ch : list key) : list key :=
  match ch with
  | [] => []
  | k :: ch' =>
      match assoc k lk with
      | Some e => if e <? time then k :: expired_prefix time lk ch' else []
      | None => []
      end
  end.

Definition expire (time : Z) (c : TTLCache) : TTLCache :=
  foldl (λ c k, delitem k c) c (expired_prefix time (links c) (chain c)).

(** [__getlink]: the [expire] time of the link of [k], which moves to the
    most-recent end of [__links]; [None] is [KeyError]. *)
Definition getlink (k : key) (c : TTLCache) : option Z * TTLCache :=
  match assoc k (links c) with
  | None => (None, c)
  | Some e =>
      (Some e,
       {| maxsize := maxsize c; ttl := ttl c; data := data c;
          links := remove_key k (links c) ++ [(k, e)];
          chain := chain c |})
  end.

(** [TTLCache.__getitem__] at time [now]; [None] is [KeyError] (the
    default [__missing__]). *)
Definition getitem (now : Z) (k : key) (c : TTLCache) : option JSON * TTLCache :=
  match getlink k c with
  | (Some e, c') => if e <? now then (None, c') else (assoc k (data c'), c')
  | (None, c') => (assoc k (data c'), c')
  end.

(** [TTLCache.popitem] with the timer already frozen at [time]: expire,
    then drop the first key of [__links]; [None] is [KeyError]. *)
Definition popitem (time : Z) (c : TTLCache) : option TTLCache :=
  let c := expire time c in
  match links c with
  | [] => None
  | (k, _) :: _ => Some (delitem k c)
  end.

(** The loop [while self.__currsize + size > maxsize: self.popitem()] of
    [Cache.__setitem__]; each round removes an item, so the number of
    items bounds the number of rounds. *)
Fixpoint make_room (fuel : nat) (time : Z) (c : TTLCache) : option TTLCache :=
  if currsize c + 1 >? maxsize c then
    match fuel with
    | O => None
    | S fuel =>
        match popitem time c with
        | None => None
        | Some c' => make_room fuel time c'
        end
    end
  else Some c.

Inductive set_outcome :=
  | Stored
  | ValueTooLarge      (* [ValueError('value too large')] *)
  | CacheEmpty.        (* [KeyError] out of [popitem] *)

(** [TTLCache.__setitem__] at time [now]. *)
Definition setitem (now : Z) (k : key) (v : JSON) (c : TTLCache) : set_outcome * TTLCache :=
  let c1 := expire now c in
  if 1 >? maxsize c1 then (ValueTooLarge, c1)
  else
    let room := match assoc k (data c1) with
                | Some _ => Some c1
                | None => make_room (S (length (data c1))) now c1
                end in
    match room with
    | None => (CacheEmpty, c1)
    | Some c2 =>
        (Stored,
         {| maxsize := maxsize c2; ttl := ttl c2;
            data := match assoc k (data c2) with
                    | Some _ => (λ kb, if decide (kb.1 = k) then (k, v) else kb) <$> data c2
                    | None => data c2 ++ [(k, v)]
                    end;
            links := remove_key k (links c2) ++ [(k, now + ttl c2)];
            chain := filter (λ k', k' ≠ k) (chain c2) ++ [k] |})
    end.

End Cachetools.

(** ** Sessions, objects and the process state *)

(** [Session.verify]: [True] on a fresh [requests.Session], then a path to a
    certificate bundle or [False]. *)
Inductive verify_t :=
  | VerifyDefault
  | VerifyFile (path : string)
  | VerifyOff.

Global Instance verify_eq_dec : EqDecision verify_t.
Proof. solve_decision. Defined.

(** [urllib3.util.retry.Retry] as [build_session] configures it. *)
Record Retry := {
  total : Z;
  read : Z;
  backoff_factor : Float64.dyadic;
  method_whitelist : gset string;
  status_forcelist : list Z;
}.

Global Instance Retry_eq_dec : EqDecision Retry.
Proof. solve_decision. Defined.

(** A fresh [requests.Session] mounts a default adapter on both schemes. *)
Inductive Adapter :=
  | DefaultAdapter
  | HTTPAdapter (max_retries : Retry).

Global Instance Adapter_eq_dec : EqDecision Adapter.
Proof. solve_decision. Defined.

(** A [WrappedSession] object; [s_id] is its identity ([id(s)]). *)
Record Session := {
  s_id : nat;
  s_base_url : pyval;
  s_timeout : option timeout_t;
  s_adapters : gmap string Adapter;
  s_headers : gmap string pyval;
  s_verify : verify_t;
}.

Global Instance Session_eq_dec : EqDecision Session.
Proof. solve_decision. Defined.

(** What an instance attribute can hold. *)
Inductive attr :=
  | AAuth                           (* [descarteslabs.descartes_auth] *)
  | AVal (v : pyval)
  | ASession (s : Session)
  | ACache (c : Cachetools.TTLCache).

Global Instance attr_eq_dec : EqDecision attr.
Proof. solve_decision. Defined.

(** The two classes; [self.TIMEOUT] resolves through the class of [self]. *)
Inductive Class := ServiceCls | PlacesCls.

Definition TIMEOUT (cls : Class) : timeout_t :=
  match cls with
  | ServiceCls => (9500, 30000)
  | PlacesCls => (9500, 120000)
  end.

(** What one attempt to reach the server comes to: an answer, no connection,
    or no answer within the read timeout. *)
Inductive reply :=
  | Answer (r : Response)
  | ConnectError
  | ReadTimedOut.

(** One attempt on the wire: the request, and the [Retry] object in force
    for it ([None] under the default adapter, which does not retry). *)
Record Attempt := {
  at_request : Request;
  at_retry : option Retry;
}.

(** Everything outside the instance: the shared auth object, the random
    generator, the allocator of object identities, the file system, the
    package version, the environment variables, the remote server (what
    the [n]-th attempt on the wire comes to), the decoder [json.loads], the
    log of the requests handed to [requests.Session.request], the attempts
    made on the wire, and the clock [time.time()]. *)
Record World := {
  auth_token : pyval;
  rng : Random.Rng;
  next_id : nat;
  cert_readable : bool;
  here : string;
  version : string;
  environ : gmap string string;
  default_headers : gmap string pyval;
  server : nat → Request → reply;
  json_loads : string → option JSON;
  http_log : list Request;
  wire : list Attempt;
  now : Z;
}.

Definition set_auth_token (t : pyval) (w : World) : World :=
  {| auth_token := t; rng := rng w; next_id := next_id w;
     cert_readable := cert_readable w; here := here w; version := version w;
     environ := environ w; default_headers := default_headers w;
     server := server w; json_loads := json_loads w;
     http_log := http_log w; wire := wire w; now := now w |}.

Definition set_rng (g : Random.Rng) (w : World) : World :=
  {| auth_token := auth_token w; rng := g; next_id := next_id w;
     cert_readable := cert_readable w; here := here w; version := version w;
     environ := environ w; default_headers := default_headers w;
     server := server w; json_loads := json_loads w;
     http_log := http_log w; wire := wire w; now := now w |}.

Definition set_next_id (n : nat) (w : World) : World :=
  {| auth_token := auth_token w; rng := rng w; next_id := n;
     cert_readable := cert_readable w; here := here w; version := version w;
     environ := environ w; default_headers := default_headers w;
     server := server w; json_loads := json_loads w;
     http_log := http_log w; wire := wire w; now := now w |}.

Definition set_http_log (l : list Request) (w : World) : World :=
  {| auth_token := auth_token w; rng := rng w; next_id := next_id w;
     cert_readable := cert_readable w; here := here w; version := version w;
     environ := environ w; default_headers := default_headers w;
     server := server w; json_loads := json_loads w;
     http_log := l; wire := wire w; now := now w |}.

Definition set_wire (l : list Attempt) (w : World) : World :=
  {| auth_token := auth_token w; rng := rng w; next_id := next_id w;
     cert_readable := cert_readable w; here := here w; version := version w;
     environ := environ w; default_headers := default_headers w;
     server := server w; json_loads := json_loads w;
     http_log := http_log w; wire := l; now := now w |}.

(** The clock moves between calls, never inside one. *)
Definition set_now (t : Z) (w : World) : World :=
  {| auth_token := auth_token w; rng := rng w; next_id := next_id w;
     cert_readable := cert_readable w; here := here w; version := version w;
     environ := environ w; default_headers := default_headers w;
     server := server w; json_loads := json_loads w;
     http_log := http_log w; wire := wire w; now := t |}.

(** The state a method runs in: the world and the object [self]. *)
Record State := {
  world : World;
  cls : Class;
  self : gmap string attr;
}.

Definition M (A : Type) : Type := State → result A * State.

Definition ret {A} (a : A) : M A := λ st, (Ok a, st).

Definition raise {A} (e : exn) : M A := λ st, (Raise e, st).

Definition bind {A B} (m : M A) (k : A → M B) : M B :=
  λ st, match m st with
        | (Ok a, st') => k a st'
        | (Raise e, st') => (Raise e, st')
        end.

Notation "'do' x <- m ; k" := (bind m (λ x, k))
  (at level 10, x name, m at level 100, k at level 200).
Notation "'exec' m ; k" := (bind m (λ _, k))
  (at level 10, m at level 100, k at level 200).

Definition lift {A} (r : result A) : M A := λ st, (r, st).

Definition get_world : M World := λ st, (Ok (world st), st).

Definition modify_world (f : World → World) : M unit :=
  λ st, (Ok tt, {| world := f (world st); cls := cls st; self := self st |}).

Definition get_class : M Class := λ st, (Ok (cls st), st).

(** [self.name]: none of the names read this way is defined in a class body
    ([Service] and [Places] define [TIMEOUT], [__init__], the properties
    [token] and [session], [build_session] and the endpoint methods), so the
    instance dictionary decides, and a miss is an [AttributeError]. *)
Definition getattr (name : string) : M attr :=
  λ st, match self st !! name with
        | Some a => (Ok a, st)
        | None => (Raise (AttributeError name), st)
        end.

(** [self.name = a]. *)
Definition setattr (name : string) (a : attr) : M unit :=
  λ st, (Ok tt, {| world := world st; cls := cls st; self := <[name := a]> (self st) |}).

(** [str(a)] for the [%s] conversions; objects print as their type name. *)
Definition attr_str (a : attr) : string :=
  match a with
  | AVal v => py_str v
  | AAuth => "<Auth>"
  | ASession _ => "<WrappedSession>"
  | ACache _ => "TTLCache"
  end.

(** [bool(a)]: objects without [__bool__] and [__len__] are truthy; a
    [TTLCache] is truthy when it holds an item. *)
Definition attr_truthy (a : attr) : bool :=
  match a with
  | AVal v => truthy v
  | AAuth | ASession _ => true
  | ACache c => negb (Cachetools.currsize c =? 0)
  end.

(** ** [WrappedSession] *)
Module WrappedSession.

(** The [if/elif] chain of [WrappedSession.request] (service.py 38-51),
    applied to the response [resp] the parent class returned for
    [method] and [url]. *)
Definition classify (method url : string) (resp : Response) : result Response :=
  if decide (status_code resp = 200) then Ok resp
  else if decide (status_code resp = 400) then Raise (BadRequestError (text resp))
  else if decide (status_code resp = 404) then
    Raise (NotFoundError ("404 " +:+ method +:+ " " +:+ url))
  else if decide (status_code resp = 429) then Raise (RateLimitError (text resp))
  else if decide (status_code resp = 504) then
    Raise (GatewayTimeoutError
             ("Your request timed out on the server. " +:+
              "Consider reducing the complexity of your request."))
  else Raise (ServerError (text resp)).

(** Lines 33-34: the session's timeout is used unless the caller gave one.
    A timeout of [None] on the session is falsy. *)
Definition with_timeout (session_timeout : option timeout_t) (kw : ReqKwargs) : ReqKwargs :=
  match session_timeout, kw_timeout kw with
  | Some t, None => {| kw_params := kw_params kw; kw_timeout := Some t |}
  | _, _ => kw
  end.

(** [str.lower] and [str.upper] on ASCII letters. *)
Definition lower_ascii (c : Ascii.ascii) : Ascii.ascii :=
  let n := Ascii.nat_of_ascii c in
  if ((65 <=? n) && (n <=? 90))%nat then Ascii.ascii_of_nat (n + 32) else c.

Definition upper_ascii (c : Ascii.ascii) : Ascii.ascii :=
  let n := Ascii.nat_of_ascii c in
  if ((97 <=? n) && (n <=? 122))%nat then Ascii.ascii_of_nat (n - 32) else c.

Fixpoint map_string (f : Ascii.ascii → Ascii.ascii) (t : string) : string :=
  match t with
  | EmptyString => EmptyString
  | String c t => String (f c) (map_string f t)
  end.

Definition lower : string → string := map_string lower_ascii.
Definition upper : string → string := map_string upper_ascii.

(** [Session.get_adapter(url)]: the adapters are kept with the longest
    prefix first, and the first one whose prefix starts the lower-cased URL
    is taken; [None] is [InvalidSchema].  (A URL that [requests] cannot
    parse is refused before that, with [MissingSchema] or [InvalidURL]; here
    such a URL finds no adapter and ends in [InvalidSchema] as well.) *)
Definition get_adapter (s : Session) (url : string) : option Adapter :=
  let matching :=
    filter (λ pa, String.prefix (lower pa.1) (lower url) = true)
           (map_to_list (s_adapters s)) in
  snd <$> foldl (λ best pa,
                   match best with
                   | Some b => if (String.length b.1 <? String.length pa.1)%nat
                               then Some pa else best
                   | None => Some pa
                   end) None matching.

(** [Retry.is_retry(method, status)] for a response without a
    [Retry-After] header: the method is whitelisted and the status is on the
    forcelist. *)
Definition is_retry (p : Retry) (method : string) (status : Z) : bool :=
  bool_decide (upper method ∈ method_whitelist p) &&
  bool_decide (status ∈ status_forcelist p).

(** [Retry.increment]: the object for the next attempt, with [total], and
    for a read error [read], lowered by one; the backoff factor, the
    whitelist and the forcelist are copied. *)
Definition increment (read_error : bool) (p : Retry) : Retry :=
  {| total := total p - 1;
     read := if read_error then read p - 1 else read p;
     backoff_factor := backoff_factor p;
     method_whitelist := method_whitelist p;
     status_forcelist := status_forcelist p |}.

(** [Retry.is_exhausted]: one of the counts has gone below zero. *)
Definition is_exhausted (p : Retry) : bool := (total p <? 0) || (read p <? 0).

(** [HTTPAdapter.send] with [max_retries = p]: attempts on the wire until
    one is answered with a status that is not to be retried, or the counts
    of [p] are used up.  A forcelisted status that outlasts the retries
    raises [RetryError] ([raise_on_status] is left at its default), a
    connection that cannot be made [ConnectionError]; a read timeout is
    retried for whitelisted methods only.  [fuel] is [total p], which every
    further attempt lowers by one. *)
Fixpoint send (fuel : nat) (p : Retry) (rq : Request) (w : World)
  : result Response * World :=
  let w1 := set_wire (wire w ++ [{| at_request := rq; at_retry := Some p |}]) w in
  let again (p' : Retry) (e : exn) : result Response * World :=
    if is_exhausted p' then (Raise e, w1)
    else match fuel with
         | S fuel' => send fuel' p' rq w1
         | O => (Raise e, w1)
         end in
  match server w (length (wire w)) rq with
  | Answer resp =>
      if is_retry p (rq_method rq) (status_code resp)
      then again (increment false p) (RetryError "too many error responses")
      else (Ok resp, w1)
  | ConnectError =>
      again (increment false p) (ConnectionError "Max retries exceeded")
  | ReadTimedOut =>
      if bool_decide (upper (rq_method rq) ∈ method_whitelist p)
      then again (increment true p) (ConnectionError "Max retries exceeded")
      else (Raise (ReadTimeout "Read timed out."), w1)
  end.

(** The default adapter, [HTTPAdapter()] with [Retry(0, read=False)]: one
    attempt, and every status is handed back. *)
Definition send_once (rq : Request) (w : World) : result Response * World :=
  let w1 := set_wire (wire w ++ [{| at_request := rq; at_retry := None |}]) w in
  match server w (length (wire w)) rq with
  | Answer resp => (Ok resp, w1)
  | ConnectError => (Raise (ConnectionError "Max retries exceeded"), w1)
  | ReadTimedOut => (Raise (ReadTimeout "Read timed out."), w1)
  end.

(** [requests.Session.request], the parent class: the request goes to the
    adapter mounted for its URL, which returns the response or raises. *)
Definition super_request (s : Session) (rq : Request) : M Response :=
  do w <- get_world;
  exec modify_world (set_http_log (http_log w ++ [rq]));
  match get_adapter s (rq_url rq) with
  | None => raise (InvalidSchema "No connection adapters were found")
  | Some DefaultAdapter =>
      λ st, let out := send_once rq (world st) in
            (out.1, {| world := out.2; cls := cls st; self := self st |})
  | Some (HTTPAdapter p) =>
      λ st, let out := send (Z.to_nat (total p)) p rq (world st) in
            (out.1, {| world := out.2; cls := cls st; self := self st |})
  end.

(** [WrappedSession.request(self, method, url, **kwargs)]. *)
Definition request (s : Session) (method url : string) (kw : ReqKwargs) : M Response :=
  let kw := with_timeout (s_timeout s) kw in
  match s_base_url s with
  | VStr base =>
      do resp <- super_request s {| rq_method := method;
                                    rq_url := base +:+ url;
                                    rq_params := kw_params kw;
                                    rq_timeout := kw_timeout kw |};
      lift (classify method url resp)
  | VNone => raise (TypeError "unsupported operand type(s) for +")
  end.

(** [requests.Session.get(url, **kwargs)]. *)
Definition get (s : Session) (url : string) (kw : ReqKwargs) : M Response :=
  request s "GET" url kw.

End WrappedSession.

(** ** The shared auth object *)
Module Auth.

(** Modelled from the spec: the class of [descarteslabs.descartes_auth] is
    not among the sources.  The spec describes it as an auth context
    providing [token] (read) and [token =] (write), a mutable process-wide
    value that each Service only observes; reading [auth.token] returns the
    value last written to [auth._token]. *)
Definition token : M pyval :=
  do w <- get_world; ret (auth_token w).

(** [auth._token = t]. *)
Definition set_token (t : pyval) : M unit :=
  modify_world (set_auth_token t).

End Auth.

(** ** service.py *)
Module Service.

(** [random.uniform(1, 3)], drawn from the world's generator. *)
Definition draw_backoff : M Float64.dyadic :=
  do w <- get_world;
  let u := Random.uniform (Float64.of_Z 1) (Float64.of_Z 3) (rng w) in
  exec modify_world (set_rng u.2);
  ret u.1.

(** [WrappedSession(base_url, timeout=...)]: a new object, with the
    defaults of [requests.Session]. *)
Definition new_WrappedSession (base_url : pyval) (timeout : option timeout_t) : M Session :=
  do w <- get_world;
  exec modify_world (set_next_id (S (next_id w)));
  ret {| s_id := next_id w;
         s_base_url := base_url;
         s_timeout := timeout;
         s_adapters := {[ "https://" := DefaultAdapter; "http://" := DefaultAdapter ]};
         s_headers := default_headers w;
         s_verify := VerifyDefault |}.

(** [s.mount(prefix, adapter)]. *)
Definition mount (prefix : string) (a : Adapter) (s : Session) : Session :=
  {| s_id := s_id s; s_base_url := s_base_url s; s_timeout := s_timeout s;
     s_adapters := <[prefix := a]> (s_adapters s);
     s_headers := s_headers s; s_verify := s_verify s |}.

(** [s.headers.update(h)]. *)
Definition headers_update (h : list (string * pyval)) (s : Session) : Session :=
  {| s_id := s_id s; s_base_url := s_base_url s; s_timeout := s_timeout s;
     s_adapters := s_adapters s;
     s_headers := foldl (λ m kv, <[kv.1 := kv.2]> m) (s_headers s) h;
     s_verify := s_verify s |}.

Definition set_verify (v : verify_t) (s : Session) : Session :=
  {| s_id := s_id s; s_base_url := s_base_url s; s_timeout := s_timeout s;
     s_adapters := s_adapters s; s_headers := s_headers s; s_verify := v |}.

(** [os.path.join(here, name)] for a relative [name]. *)
Definition path_join (dir name : string) : string :=
  if String.eqb dir "" then name
  else if String.eqb (String.substring (String.length dir - 1) 1 dir) "/"
       then dir +:+ name
       else dir +:+ "/" +:+ name.

(** [Service.__init__(self, url, token)]. *)
Definition __init__ (url token : pyval) : M unit :=
  exec setattr "auth" AAuth;
  exec setattr "base_url" (AVal url);
  exec (if truthy token then Auth.set_token token else ret tt);
  exec setattr "current_session" (AVal VNone);
  setattr "session_token" (AVal VNone).

(** The property [token] and its setter. *)
Definition token : M pyval :=
  exec getattr "auth"; Auth.token.

Definition token_setter (t : pyval) : M unit :=
  exec getattr "auth"; Auth.set_token t.

(** [Service.build_session]. *)
Definition build_session : M Session :=
  do base <- getattr "base_url";
  do c <- get_class;
  do s <- new_WrappedSession
            (match base with AVal v => v | _ => VNone end) (Some (TIMEOUT c));
  do bf <- draw_backoff;
  let retries :=
    {| total := 5;
       read := 2;
       backoff_factor := bf;
       method_whitelist :=
         list_to_set ["HEAD"; "TRACE"; "GET"; "POST"; "PUT"; "OPTIONS"; "DELETE"];
       status_forcelist := [429; 500; 502; 503] |} in
  let s := mount "https://" (HTTPAdapter retries) s in
  do tok <- token;
  do w <- get_world;
  let s := headers_update
             [("Authorization", tok);
              ("Content-Type", VStr "application/json");
              ("User-Agent", VStr ("dl-python/" +:+ version w))] s in
  let file := path_join (here w) "gd_bundle-g2-g1.crt" in
  let s := if cert_readable w then set_verify (VerifyFile file) s
           else set_verify VerifyOff s in
  ret s.

(** The property [session]. *)
Definition session : M Session :=
  do st <- getattr "session_token";
  do tok <- token;
  exec (if decide (st ≠ AVal tok) then setattr "current_session" (AVal VNone)
        else ret tt);
  do cur <- getattr "current_session";
  exec (if negb (attr_truthy cur) then
          do s <- build_session;
          exec setattr "current_session" (ASession s);
          do tok' <- token;
          setattr "session_token" (AVal tok')
        else ret tt);
  do cur' <- getattr "current_session";
  match cur' with
  | ASession s => ret s
  | _ => raise (TypeError "current_session is not a session")
  end.

(** [Service(url, token)]: a new object, initialised. *)
Definition new (url token : pyval) (w : World) : State :=
  snd (__init__ url token {| world := w; cls := ServiceCls; self := ∅ |}).

End Service.

(** ** Calling a Python function: binding arguments to parameters *)
Module Call.
Import Cachetools.

(** The parameters after [self], each with its default if it has one, and
    whether the function ends in a double-star parameter. *)
Record signature := {
  sig_params : list (string * option pyval);
  sig_varkw : bool;
}.

Fixpoint kw_lookup (name : string) (kw : kwargs_t) : option pyval :=
  match kw with
  | [] => None
  | (n, v) :: kw => if decide (n = name) then Some v else kw_lookup name kw
  end.

(** Positional arguments fill the leading parameters; [None] when there
    are too many. *)
Fixpoint bind_positional (ps : list (string * option pyval)) (args : list pyval)
  : option (list pyval * list (string * option pyval)) :=
  match args, ps with
  | [], _ => Some ([], ps)
  | a :: args, _ :: ps =>
      match bind_positional ps args with
      | Some (vs, rest) => Some (a :: vs, rest)
      | None => None
      end
  | _ :: _, [] => None
  end.

(** The remaining parameters take their keyword argument, else their
    default; [None] when one has neither. *)
Fixpoint bind_keywords (ps : list (string * option pyval)) (kw : kwargs_t)
  : option (list pyval) :=
  match ps with
  | [] => Some []
  | (n, d) :: ps =>
      match (match kw_lookup n kw with Some v => Some v | None => d end),
            bind_keywords ps kw with
      | Some v, Some vs => Some (v :: vs)
      | _, _ => None
      end
  end.

(** The values of the parameters in order, and the keyword arguments left
    for the double-star parameter.  The receiver [self] is the first
    parameter and is always taken, and a keyword can be given once only. *)
Definition bind_call (sg : signature) (args : list pyval) (kw : kwargs_t)
  : result (list pyval * kwargs_t) :=
  match bind_positional (sig_params sg) args with
  | None => Raise (TypeError "too many positional arguments")
  | Some (vs, rest) =>
      let taken := "self" :: take (length vs) (sig_params sg).*1 in
      if bool_decide (Exists (λ kv, kv.1 ∈ taken) kw) ||
         negb (bool_decide (NoDup kw.*1))
      then Raise (TypeError "got multiple values for argument")
      else
        match bind_keywords rest kw with
        | None => Raise (TypeError "missing required positional argument")
        | Some ws =>
            let extra := filter (λ kv, kv.1 ∉ rest.*1) kw in
            match extra, sig_varkw sg with
            | _ :: _, false => Raise (TypeError "got an unexpected keyword argument")
            | _, _ => Ok (vs ++ ws, extra)
            end
        end
  end.

(** [cachedmethod(operator.attrgetter(cache_attr), key=keyf)(method)],
    called on [self] with [args] and [kwargs]:
    [[
      c = cache(self)
      if c is None: return method(self, args, kwargs)
      k = key(args, kwargs)
      try: return c[k]
      except KeyError: pass
      v = method(self, args, kwargs)
      try: c[k] = v
      except ValueError: pass
      return v
    ]]
    The wrapper is itself a function of [self], the positional and the
    keyword arguments: a call that repeats a keyword or passes one named
    [self] is a [TypeError] before the wrapper's body runs. *)
Definition wrapper_accepts (kwargs : kwargs_t) : bool :=
  bool_decide (NoDup kwargs.*1) && bool_decide ("self" ∉ kwargs.*1).

Definition cachedmethod (cache_attr : string)
    (keyf : list pyval → kwargs_t → key)
    (method : list pyval → kwargs_t → M JSON)
    (args : list pyval) (kwargs : kwargs_t) : M JSON :=
  if negb (wrapper_accepts kwargs)
  then raise (TypeError "got multiple values for argument")
  else
  do c <- getattr cache_attr;
  match c with
  | AVal VNone => method args kwargs
  | ACache c0 =>
      let k := keyf args kwargs in
      do w <- get_world;
      let hit := getitem (now w) k c0 in
      exec setattr cache_attr (ACache hit.2);
      match hit.1 with
      | Some v => ret v
      | None =>
          do v <- method args kwargs;
          do w' <- get_world;
          do c' <- getattr cache_attr;
          match c' with
          | ACache c2 =>
              match setitem (now w') k v c2 with
              | (Stored, c3) | (ValueTooLarge, c3) =>
                  exec setattr cache_attr (ACache c3); ret v
              | (CacheEmpty, c3) =>
                  exec setattr cache_attr (ACache c3);
                  raise (KeyError "cache is empty")
              end
          | _ => raise (TypeError "object does not support item assignment")
          end
      end
  | _ => raise (TypeError "object is not subscriptable")
  end.

End Call.

(** ** places.py *)
Module Places.
Import Cachetools Call.

(** [r.json()]: the body decoded, or [ValueError] (which [JSONDecodeError]
    is) when the body is not JSON. *)
Definition json (r : Response) : M JSON :=
  do w <- get_world;
  match json_loads w (text r) with
  | Some j => ret j
  | None => raise (ValueError "No JSON object could be decoded")
  end.

(** [if v: params[name] = v]. *)
Definition add_if (name : string) (v : pyval) (params : list (string * param))
  : list (string * param) :=
  if truthy v then params ++ [(name, POne v)] else params.

(** An argument of [value]: absent, one string, or a list of strings. *)
Inductive strs :=
  | SNone
  | SOne (s : string)
  | SMany (l : list string).

(** [if v: (wrap a single string in a list); params[name] = v]. *)
Definition add_list_if (name : string) (v : strs) (params : list (string * param))
  : list (string * param) :=
  match v with
  | SNone => params
  | SOne s => if String.eqb s "" then params else params ++ [(name, PMany [s])]
  | SMany [] => params
  | SMany l => params ++ [(name, PMany l)]
  end.

(** [Places.__init__(self, url=None, token=None, maxsize=10, ttl=600)]. *)
Definition __init__ (url token : pyval) (maxsize ttl : Z) : M unit :=
  do w <- get_world;
  let url := match url with
             | VNone => VStr (default "https://platform-services.descarteslabs.com/waldo/dev"
                                      (environ w !! "DESCARTESLABS_PLACES_URL"))
             | _ => url
             end in
  exec Service.__init__ url token;
  setattr "cache" (ACache (Cachetools.empty maxsize ttl)).

(** The GET every endpoint ends in, with the keyword arguments it passes. *)
Definition timeout_kw (c : Class) (params : option (list (string * param))) : ReqKwargs :=
  {| kw_params := params; kw_timeout := Some (TIMEOUT c) |}.

Definition placetypes : M JSON :=
  do s <- Service.session;
  do u <- getattr "url";
  do c <- get_class;
  do r <- WrappedSession.get s (attr_str u +:+ "/placetypes") (timeout_kw c None);
  json r.

Definition random (geom placetype : pyval) : M JSON :=
  let params := add_if "placetype" placetype (add_if "geom" geom []) in
  do s <- Service.session;
  do u <- getattr "url";
  do r <- WrappedSession.get s (attr_str u +:+ "/random")
            {| kw_params := Some params; kw_timeout := None |};
  if decide (status_code r ≠ 200)
  then raise (RuntimeError (pretty (status_code r) +:+ ": " +:+ text r))
  else json r.

Definition find_sig : signature :=
  {| sig_params := [("path", None)]; sig_varkw := true |}.

Definition find_body (path : pyval) (kwargs : kwargs_t) : M JSON :=
  do s <- Service.session;
  do u <- getattr "url";
  do c <- get_class;
  do r <- WrappedSession.get s (attr_str u +:+ "/find/" +:+ py_str path)
            (timeout_kw c (Some ((λ kv, (kv.1, POne kv.2)) <$> kwargs)));
  json r.

Definition find : list pyval → kwargs_t → M JSON :=
  cachedmethod "cache" (partial_hashkey "find")
    (λ args kwargs,
       do b <- lift (bind_call find_sig args kwargs);
       match b with
       | ([path], extra) => find_body path extra
       | _ => raise (TypeError "find")
       end).

Definition shape_sig : signature :=
  {| sig_params := [("slug", None); ("output", Some (VStr "geojson"));
                    ("geom", Some (VStr "low"))];
     sig_varkw := false |}.

Definition shape_body (slug output geom : pyval) : M JSON :=
  do s <- Service.session;
  do u <- getattr "url";
  do c <- get_class;
  do r <- WrappedSession.get s
            (attr_str u +:+ "/shape/" +:+ py_str slug +:+ "." +:+ py_str output)
            (timeout_kw c (Some [("geom", POne geom)]));
  json r.

Definition shape : list pyval → kwargs_t → M JSON :=
  cachedmethod "cache" (partial_hashkey "shape")
    (λ args kwargs,
       do b <- lift (bind_call shape_sig args kwargs);
       match b with
       | ([slug; output; geom], _) => shape_body slug output geom
       | _ => raise (TypeError "shape")
       end).

Definition prefix_sig : signature :=
  {| sig_params := [("slug", None); ("output", Some (VStr "geojson"));
                    ("placetype", Some VNone); ("geom", Some (VStr "low"))];
     sig_varkw := false |}.

Definition prefix_body (slug output placetype geom : pyval) : M JSON :=
  let params := add_if "placetype" placetype [] ++ [("geom", POne geom)] in
  do s <- Service.session;
  do u <- getattr "url";
  do c <- get_class;
  do r <- WrappedSession.get s
            (attr_str u +:+ "/prefix/" +:+ py_str slug +:+ "." +:+ py_str output)
            (timeout_kw c (Some params));
  json r.

Definition prefix : list pyval → kwargs_t → M JSON :=
  cachedmethod "cache" (partial_hashkey "prefix")
    (λ args kwargs,
       do b <- lift (bind_call prefix_sig args kwargs);
       match b with
       | ([slug; output; placetype; geom], _) => prefix_body slug output placetype geom
       | _ => raise (TypeError "prefix")
       end).

(** [sources], [categories] and [metrics] differ in the path only. *)
Definition listing (what : string) : M JSON :=
  do s <- Service.session;
  do u <- getattr "url";
  do c <- get_class;
  do r <- WrappedSession.get s (attr_str u +:+ "/" +:+ what) (timeout_kw c None);
  json r.

Definition sources : M JSON := listing "sources".
Definition categories : M JSON := listing "categories".
Definition metrics : M JSON := listing "metrics".

Definition data (slug source category metric date placetype : pyval) : M JSON :=
  let params :=
    add_if "placetype" placetype
      (add_if "date" date
         (add_if "metric" metric
            (add_if "category" category (add_if "source" source [])))) in
  do s <- Service.session;
  do u <- getattr "url";
  do c <- get_class;
  do r <- WrappedSession.get s (attr_str u +:+ "/data/" +:+ py_str slug)
            (timeout_kw c (Some params));
  json r.

Definition statistics (slug source category metric : pyval) : M JSON :=
  let params :=
    add_if "metric" metric (add_if "category" category (add_if "source" source [])) in
  do s <- Service.session;
  do u <- getattr "url";
  do c <- get_class;
  do r <- WrappedSession.get s (attr_str u +:+ "/statistics/" +:+ py_str slug)
            (timeout_kw c (Some params));
  json r.

Definition value (slug : pyval) (source category metric : strs) (date : pyval) : M JSON :=
  let params :=
    add_if "date" date
      (add_list_if "metric" metric
         (add_list_if "category" category (add_list_if "source" source []))) in
  do s <- Service.session;
  do u <- getattr "url";
  do c <- get_class;
  do r <- WrappedSession.get s (attr_str u +:+ "/value/" +:+ py_str slug)
            (timeout_kw c (Some params));
  json r.

(** The eleven endpoint methods with their arguments. *)
Inductive endpoint :=
  | Placetypes
  | Random (geom placetype : pyval)
  | Find (args : list pyval) (kwargs : kwargs_t)
  | Shape (args : list pyval) (kwargs : kwargs_t)
  | Prefix (args : list pyval) (kwargs : kwargs_t)
  | Sources
  | Categories
  | Metrics
  | Data (slug source category metric date placetype : pyval)
  | Statistics (slug source category metric : pyval)
  | Value (slug : pyval) (source category metric : strs) (date : pyval).

Definition call (e : endpoint) : M JSON :=
  match e with
  | Placetypes => placetypes
  | Random g p => random g p
  | Find a k => find a k
  | Shape a k => shape a k
  | Prefix a k => prefix a k
  | Sources => sources
  | Categories => categories
  | Metrics => metrics
  | Data s so c m d p => data s so c m d p
  | Statistics s so c m => statistics s so c m
  | Value s so c m d => value s so c m d
  end.

(** [Places(url, token, maxsize, ttl)]: a new object, initialised. *)
Definition new (url token : pyval) (maxsize ttl : Z) (w : World) : State :=
  snd (__init__ url token maxsize ttl {| world := w; cls := PlacesCls; self := ∅ |}).

End Places.

(** ** The life of an instance

    The states an instance can be in: it is constructed in some world, then
    the session is accessed, the shared token is written, time passes, and
    (on a [Places] instance) endpoint methods are called, in any order. *)
Definition tick (t : Z) (st : State) : State :=
  {| world := set_now t (world st); cls := cls st; self := self st |}.

Inductive reachable : State → Prop :=
  | reach_Service url token w :
      reachable (Service.new url token w)
  | reach_Places url token maxsize ttl w :
      reachable (Places.new url token maxsize ttl w)
  | reach_session st :
      reachable st → reachable (Service.session st).2
  | reach_token t st :
      reachable st → reachable (Service.token_setter t st).2
  | reach_tick t st :
      reachable st → reachable (tick t st)
  | reach_call e st :
      reachable st → cls st = PlacesCls → reachable (Places.call e st).2.

(** Calls that Python accepts for the signature of the method called. *)
Definition binds (e : Places.endpoint) : bool :=
  let ok sg args kw :=
    match Call.bind_call sg args kw with Ok _ => true | Raise _ => false end in
  match e with
  | Places.Find a k => ok Places.find_sig a k
  | Places.Shape a k => ok Places.shape_sig a k
  | Places.Prefix a k => ok Places.prefix_sig a k
  | _ => true
  end.

(** ** Sample worlds *)
Module Samples.

(** A generator that yields the word [x] forever. *)
Definition constant_rng (x : Z) : Random.Rng :=
  {| Random.mt := λ _, x; Random.pos := 0 |}.

(** A server that answers every attempt with [status] and [body]. *)
Definition fixed_server (status : Z) (body : string) : nat → Request → reply :=
  λ _ _, Answer {| status_code := status; text := body |}.

(** A decoder that takes the texts opening a JSON array or object. *)
Definition loads (body : string) : option JSON :=
  if String.prefix "[" body || String.prefix "{" body
  then Some (Decoded body) else None.

Definition world0 : World :=
  {| auth_token := VStr "token-a";
     rng := constant_rng 0;
     next_id := 0;
     cert_readable := true;
     here := "/site-packages/descarteslabs/services";
     version := "0.4.6";
     environ := ∅;
     default_headers := ∅;
     server := fixed_server 200 "[]";
     json_loads := loads;
     http_log := [];
     wire := [];
     now := 1000 |}.

(** The same world with the generator stuck at all ones. *)
Definition world_max : World := set_rng (constant_rng (2 ^ 32 - 1)) world0.

(** The same world without a readable certificate bundle. *)
Definition world_nocert : World :=
  {| auth_token := VStr "token-a"; rng := constant_rng 0; next_id := 0;
     cert_readable := false;
     here := "/site-packages/descarteslabs/services"; version := "0.4.6";
     environ := ∅; default_headers := ∅;
     server := fixed_server 200 "[]"; json_loads := loads;
     http_log := []; wire := []; now := 1000 |}.

(** A session as [WrappedSession("https://example.test", (9.5, 30))]
    leaves it. *)
Definition session0 : Session :=
  {| s_id := 0;
     s_base_url := VStr "https://example.test";
     s_timeout := Some (9500, 30000);
     s_adapters := {[ "https://" := DefaultAdapter; "http://" := DefaultAdapter ]};
     s_headers := ∅;
     s_verify := VerifyDefault |}.

Definition no_kwargs : ReqKwargs := {| kw_params := None; kw_timeout := None |}.

(** A world whose server answers every attempt with [status] and [body]. *)
Definition world_answering (status : Z) (body : string) : World :=
  {| auth_token := VStr "token-a"; rng := constant_rng 0; next_id := 0;
     cert_readable := true; here := ""; version := "0.4.6";
     environ := ∅; default_headers := ∅;
     server := fixed_server status body; json_loads := loads;
     http_log := []; wire := []; now := 1000 |}.

(** A state whose server answers [status] with [body]. *)
Definition answering (status : Z) (body : string) : State :=
  {| world := {| auth_token := VStr "token-a"; rng := constant_rng 0; next_id := 1;
                 cert_readable := true; here := ""; version := "0.4.6";
                 environ := ∅; default_headers := ∅;
                 server := fixed_server status body; json_loads := loads;
                 http_log := []; wire := []; now := 1000 |};
     cls := ServiceCls;
     self := ∅ |}.

End Samples.

(** What a call came to: [None] for a normal return, else the kind of the
    error raised. *)
Definition outcome {A} (r : result A) : option ErrorKind :=
  match r with
  | Ok _ => None
  | Raise e => Some (kind_of e)
  end.

(** The exceptions the parent class raises: those of [requests]. *)
Definition from_requests (e : exn) : bool :=
  match e with
  | RetryError _ | ConnectionError _ | ReadTimeout _ | InvalidSchema _ => true
  | _ => false
  end.

(** The call ended in a [RuntimeError]. *)
Definition raised_RuntimeError {A} (r : result A) : bool :=
  match r with
  | Raise (RuntimeError _) => true
  | _ => false
  end.

(** The terminal response of [request(method, url)] on [s] in state [st]:
    the response the parent class hands back to the [if/elif] chain.  There
    is none when the parent raises instead (the retries are used up, or the
    server cannot be reached). *)
Definition terminal_response (s : Session) (method url : string) (kw : ReqKwargs)
    (st : State) : option Response :=
  let kw := WrappedSession.with_timeout (s_timeout s) kw in
  match (WrappedSession.super_request s
           {| rq_method := method;
              rq_url := py_str (s_base_url s) +:+ url;
              rq_params := kw_params kw;
              rq_timeout := kw_timeout kw |} st).1 with
  | Ok resp => Some resp
  | Raise _ => None
  end.

(** The same [Retry] object but for its counts. *)
Definition same_policy (p p' : Retry) : Prop :=
  backoff_factor p' = backoff_factor p ∧
  method_whitelist p' = method_whitelist p ∧
  status_forcelist p' = status_forcelist p.

(** The attempts made on the wire between two states. *)
Definition attempts_between (st st' : State) : list Attempt :=
  drop (length (wire (world st))) (wire (world st')).

(** The retry policy [build_session] mounts on [https://]: the method
    whitelist, the status forcelist, and a backoff factor between 1 and 3,
    both ends included. *)
Definition configured (s : Session) : Prop :=
  ∃ r, s_adapters s !! "https://" = Some (HTTPAdapter r) ∧
       total r = 5 ∧ read r = 2 ∧
       method_whitelist r =
         list_to_set ["HEAD"; "TRACE"; "GET"; "POST"; "PUT"; "OPTIONS"; "DELETE"] ∧
       status_forcelist r = [429; 500; 502; 503] ∧
       Float64.leb (Float64.of_Z 1) (backoff_factor r) = true ∧
       Float64.leb (backoff_factor r) (Float64.of_Z 3) = true.

(** The backoff factor of the policy mounted on [https://], if any. *)
Definition backoff_of (s : Session) : option Float64.dyadic :=
  match s_adapters s !! "https://" with
  | Some (HTTPAdapter r) => Some (backoff_factor r)
  | _ => None
  end.

(** What holds of every instance, whatever has been called on it. *)
Record inv (st : State) : Prop := {
  inv_auth : self st !! "auth" = Some AAuth;
  inv_base : ∃ b, self st !! "base_url" = Some (AVal b);
  inv_token : ∃ v, self st !! "session_token" = Some (AVal v);
  inv_session :
    self st !! "current_session" = Some (AVal VNone) ∨
    ∃ s, self st !! "current_session" = Some (ASession s) ∧
         (s_id s < next_id (world st))%nat ∧ configured s;
  inv_url : self st !! "url" = None;
  inv_cache :
    cls st = PlacesCls →
    ∃ m t, self st !! "cache" = Some (ACache (Cachetools.empty m t));
}.

(** The session has to be built: there is none, or the token it was built
    for is not the current one. *)
Definition stale (st : State) : Prop :=
  self st !! "current_session" = Some (AVal VNone) ∨
  self st !! "session_token" ≠ Some (AVal (auth_token (world st))).

(** The session held is the one [build_session] makes for this instance:
    bound to its [base_url], with the timeout of its class, carrying the
    token recorded in [session_token], its [http://] adapter left at the
    default, its [verify] decided, and no retry policy mounted anywhere but
    on [https://]. *)
Definition session_matches (st : State) (s : Session) : Prop :=
  self st !! "base_url" = Some (AVal (s_base_url s)) ∧
  s_timeout s = Some (TIMEOUT (cls st)) ∧
  (∃ v, self st !! "session_token" = Some (AVal v) ∧
        s_headers s !! "Authorization" = Some v) ∧
  s_headers s !! "Content-Type" = Some (VStr "application/json") ∧
  s_adapters s !! "http://" = Some DefaultAdapter ∧
  s_verify s ≠ VerifyDefault ∧
  ∀ k p, s_adapters s !! k = Some (HTTPAdapter p) → k = "https://".

(** The request [WrappedSession.request] hands to its parent class. *)
Definition sent_request (s : Session) (base method url : string) (kw : ReqKwargs)
    : Request :=
  {| rq_method := method;
     rq_url := base +:+ url;
     rq_params := kw_params kw;
     rq_timeout := match kw_timeout kw with
                   | Some t => Some t
                   | None => s_timeout s
                   end |}.

(** The errors a computation can raise and the values it can return, in
    any state. *)
Definition raises_only {A} (P : exn → Prop) (m : M A) : Prop :=
  ∀ st e, (m st).1 = Raise e → P e.

Definition returns_only {A} (Q : A → Prop) (m : M A) : Prop :=
  ∀ st a, (m st).1 = Ok a → Q a.

(** * Properties *)

(** ** The parent class *)

Lemma set_wire_set_wire l l' w : set_wire l' (set_wire l w) = set_wire l' w.
Proof. reflexivity. Qed.

(** [send] only adds attempts to the wire, each for the request it was
    given and under a [Retry] object with the backoff factor it started
    with. *)
Lemma send_wire fuel p rq w :
  ∃ l, (WrappedSession.send fuel p rq w).2 = set_wire (wire w ++ l) w ∧
       Forall (λ a, at_request a = rq ∧
                    ∃ p', at_retry a = Some p' ∧ same_policy p p') l.
Proof.
  revert p w. induction fuel as [|fuel IH]; intros p w.
  - exists [{| at_request := rq; at_retry := Some p |}]. split.
    + cbn [WrappedSession.send].
      destruct (server w (length (wire w)) rq);
        repeat (match goal with |- context [if ?c then _ else _] => destruct c end);
        reflexivity.
    + repeat constructor. by eexists.
  - assert (∀ rd, ∃ l,
              (WrappedSession.send fuel (WrappedSession.increment rd p) rq
                 (set_wire (wire w ++ [{| at_request := rq; at_retry := Some p |}]) w)).2 =
                set_wire (wire w ++ l) w ∧
              Forall (λ a, at_request a = rq ∧
                           ∃ p', at_retry a = Some p' ∧ same_policy p p') l) as Hrec.
    { intros rd.
      destruct (IH (WrappedSession.increment rd p)
                   (set_wire (wire w ++ [{| at_request := rq; at_retry := Some p |}]) w))
        as (l & El & Hl).
      exists ({| at_request := rq; at_retry := Some p |} :: l). split.
      - rewrite El. cbn [wire set_wire]. rewrite set_wire_set_wire.
        by rewrite <- app_assoc.
      - constructor; [split; [done|by eexists]|].
        eapply Forall_impl; [exact Hl|]. intros a (Ha & p' & Hp' & Hb & Hw & Hf).
        split; [done|]. exists p'. split; [done|]. by repeat split. }
    assert (∃ l, set_wire (wire w ++ [{| at_request := rq; at_retry := Some p |}]) w =
                 set_wire (wire w ++ l) w ∧
                 Forall (λ a, at_request a = rq ∧
                              ∃ p', at_retry a = Some p' ∧ same_policy p p') l) as Hone.
    { exists [{| at_request := rq; at_retry := Some p |}]. split; [done|].
      repeat constructor. by eexists. }
    cbn [WrappedSession.send].
    destruct (server w (length (wire w)) rq);
      repeat (match goal with |- context [if ?c then _ else _] => destruct c end);
      cbn [snd]; first [apply Hrec|apply Hone].
Qed.

(** The fuel [total p] is enough: with it, or with any more, [send] gives
    the same result, so no attempt is cut short by the fuel. *)
Lemma send_enough_fuel fuel1 fuel2 p rq w :
  (Z.to_nat (total p) ≤ fuel1)%nat → (Z.to_nat (total p) ≤ fuel2)%nat →
  WrappedSession.send fuel1 p rq w = WrappedSession.send fuel2 p rq w.
Proof.
  revert fuel2 p w. induction fuel1 as [|f1 IH]; intros fuel2 p w H1 H2;
    destruct fuel2 as [|f2]; cbn [WrappedSession.send];
    destruct (server w (length (wire w)) rq);
    repeat (match goal with
            | |- context [if ?c then _ else _] => destruct c eqn:?
            end);
    try reflexivity;
    match goal with
    | Hex : WrappedSession.is_exhausted _ = false |- _ =>
        unfold WrappedSession.is_exhausted, WrappedSession.increment in Hex;
        cbn [total read] in Hex;
        apply orb_false_iff in Hex as [Hex _]; apply Z.ltb_ge in Hex
    end;
    first [exfalso; lia | apply IH; cbn [total WrappedSession.increment]; lia].
Qed.

Lemma from_requests_builtin e : from_requests e = true → kind_of e = Builtin.
Proof. by destruct e. Qed.

(** What [send] raises is an exception of [requests]. *)
Lemma send_raises_builtin fuel p rq w e :
  (WrappedSession.send fuel p rq w).1 = Raise e → from_requests e = true.
Proof.
  revert p w. induction fuel as [|fuel IH]; intros p w; cbn [WrappedSession.send];
    destruct (server w (length (wire w)) rq);
    repeat (match goal with |- context [if ?c then _ else _] => destruct c end);
    cbn [fst]; intros E; simplify_eq; try reflexivity; by eapply IH.
Qed.

Lemma send_once_wire rq w :
  (WrappedSession.send_once rq w).2 =
  set_wire (wire w ++ [{| at_request := rq; at_retry := None |}]) w.
Proof.
  unfold WrappedSession.send_once. by destruct (server w (length (wire w)) rq).
Qed.

(** The adapter [get_adapter] finds is one mounted on the session. *)
Lemma get_adapter_mounted s url a :
  WrappedSession.get_adapter s url = Some a → ∃ k, s_adapters s !! k = Some a.
Proof.
  unfold WrappedSession.get_adapter.
  set (l := filter _ (map_to_list (s_adapters s))).
  assert (∀ (l : list (string * Adapter)) best pa,
            foldl (λ best pa,
                     match best with
                     | Some b => if (String.length b.1 <? String.length pa.1)%nat
                                 then Some pa else best
                     | None => Some pa
                     end) best l = Some pa →
            best = Some pa ∨ pa ∈ l) as Hfold.
  { clear. induction l as [|x l IH]; intros best pa; cbn [foldl].
    - intros ->. by left.
    - intros E. apply IH in E as [E|E]; [|right; by right].
      destruct best as [b|].
      + destruct (_ <? _)%nat; simplify_eq; [right; by left|by left].
      + simplify_eq. right. by left. }
  destruct (foldl _ None l) as [[k a']|] eqn:E; cbn; intros H; simplify_eq.
  apply Hfold in E as [E|E]; [discriminate E|].
  subst l. apply list_elem_of_filter in E as [_ E].
  apply elem_of_map_to_list in E. by exists k.
Qed.

Lemma set_wire_same w : set_wire (wire w) w = w.
Proof. by destruct w. Qed.

(** What the parent class does to the state: the request is logged as
    handed over, attempts for it are added to the wire, each under the
    policy of the adapter mounted for the URL, and that is all. *)
Lemma super_request_state s rq st :
  ∃ l, (WrappedSession.super_request s rq st).2 =
       {| world := set_wire (wire (world st) ++ l)
                     (set_http_log (http_log (world st) ++ [rq]) (world st));
          cls := cls st; self := self st |} ∧
       Forall (λ a, at_request a = rq ∧
                    ∀ p', at_retry a = Some p' →
                          ∃ p, WrappedSession.get_adapter s (rq_url rq) =
                                 Some (HTTPAdapter p) ∧ same_policy p p') l.
Proof.
  unfold WrappedSession.super_request, bind, get_world, modify_world.
  cbn [world cls self fst snd].
  destruct (WrappedSession.get_adapter s (rq_url rq)) as [[|p]|].
  - eexists. cbv zeta. cbn [snd world]. rewrite send_once_wire. split; [reflexivity|].
    repeat constructor. intros p' E. discriminate E.
  - destruct (send_wire (Z.to_nat (total p)) p rq
                (set_http_log (http_log (world st) ++ [rq]) (world st)))
      as (l & El & Hl).
    exists l. cbv zeta. cbn [snd world]. rewrite El. split; [reflexivity|].
    eapply Forall_impl; [exact Hl|]. intros a (Ha & p' & Hp' & Hsame).
    split; [done|]. intros p'' E. rewrite Hp' in E. simplify_eq. by exists p.
  - exists []. cbn [snd raise]. rewrite app_nil_r.
    change (wire (world st)) with
      (wire (set_http_log (http_log (world st) ++ [rq]) (world st))).
    rewrite set_wire_same. by split.
Qed.

(** ** Status codes and error kinds *)
Section request.
Context (s : Session) (base : string) (Hbase : s_base_url s = VStr base).
Context (method url : string) (kw : ReqKwargs) (st : State).

(** A response the parent class returns goes through the [if/elif] chain. *)
Lemma request_classify resp :
  terminal_response s method url kw st = Some resp →
  (WrappedSession.request s method url kw st).1 =
  WrappedSession.classify method url resp.
Proof.
  unfold WrappedSession.request, terminal_response. rewrite Hbase.
  cbn [py_str]. unfold bind.
  destruct (WrappedSession.super_request s _ st) as [[r|e] st'];
    cbn [fst]; intros E; by simplify_eq.
Qed.

(** What the parent class raises goes through [request] unchanged. *)
Lemma request_parent_raises :
  terminal_response s method url kw st = None →
  ∃ e, (WrappedSession.request s method url kw st).1 = Raise e ∧
       from_requests e = true ∧
       (WrappedSession.super_request s
          {| rq_method := method; rq_url := base +:+ url;
             rq_params := kw_params (WrappedSession.with_timeout (s_timeout s) kw);
             rq_timeout := kw_timeout (WrappedSession.with_timeout (s_timeout s) kw) |}
          st).1 = Raise e.
Proof.
  unfold WrappedSession.request, terminal_response. rewrite Hbase.
  cbn [py_str]. unfold bind.
  set (rq := {| rq_method := method |}).
  destruct (WrappedSession.super_request s rq st) as [[r|e] st'] eqn:E;
    cbn [fst]; intros H; [discriminate H|].
  exists e. split; [reflexivity|]. split; [|reflexivity].
  (* the parent raises nothing but the exceptions of [requests] *)
  unfold WrappedSession.super_request, bind, get_world, modify_world in E.
  cbn [world cls self fst snd] in E.
  destruct (WrappedSession.get_adapter s (rq_url rq)) as [[|p]|].
  - cbv zeta in E. apply pair_equal_spec in E as [E _]. cbn [fst] in E.
    unfold WrappedSession.send_once in E.
    destruct (server _ _ rq); cbn [fst] in E; simplify_eq; reflexivity.
  - cbv zeta in E. apply pair_equal_spec in E as [E _]. cbn [fst] in E.
    by apply send_raises_builtin in E.
  - apply pair_equal_spec in E as [E _]. unfold raise in E.
    simplify_eq. reflexivity.
Qed.

Lemma request_logs_one :
  http_log (world (WrappedSession.request s method url kw st).2) =
  http_log (world st) ++
    [{| rq_method := method; rq_url := base +:+ url;
        rq_params := kw_params (WrappedSession.with_timeout (s_timeout s) kw);
        rq_timeout := kw_timeout (WrappedSession.with_timeout (s_timeout s) kw) |}].
Proof.
  unfold WrappedSession.request. rewrite Hbase.
  set (rq := {| rq_method := method |}).
  destruct (super_request_state s rq st) as (l & El & _).
  unfold bind. destruct (WrappedSession.super_request s rq st) as [[r|e] st'];
    cbn [snd] in El |- *; subst st'; [|reflexivity].
  unfold lift. reflexivity.
Qed.
End request.

Lemma classify_kind_by_status method url method' url' resp resp' :
  status_code resp = status_code resp' →
  outcome (WrappedSession.classify method url resp) =
  outcome (WrappedSession.classify method' url' resp').
Proof.
  intros E. unfold WrappedSession.classify. rewrite E.
  repeat case_decide; reflexivity.
Qed.

(** What the [if/elif] chain does with a response it gets from the parent
    class: 200 comes back, 400, 404, 429 and 504 raise their kinds, every
    other status outside 2xx raises [ServerError], and the outcome depends on
    the status code only. *)
Lemma classification_by_status
    (s : Session) (base method url : string) (kw : ReqKwargs) (st : State)
    (resp : Response) :
  s_base_url s = VStr base →
  terminal_response s method url kw st = Some resp →
  let r := (WrappedSession.request s method url kw st).1 in
  (status_code resp = 200 → r = Ok resp) ∧
  (status_code resp = 400 → outcome r = Some BadRequest) ∧
  (status_code resp = 404 → outcome r = Some NotFound) ∧
  (status_code resp = 429 → outcome r = Some RateLimited) ∧
  (status_code resp = 504 → outcome r = Some GatewayTimeout) ∧
  (¬ (200 ≤ status_code resp < 300) →
   status_code resp ∉ [400; 404; 429; 504] →
   outcome r = Some ServerErr) ∧
  (∀ s' base' method' url' kw' st' resp',
     s_base_url s' = VStr base' →
     terminal_response s' method' url' kw' st' = Some resp' →
     status_code resp' = status_code resp →
     outcome (WrappedSession.request s' method' url' kw' st').1 = outcome r).
Proof.
  intros Hbase Hresp r. subst r.
  rewrite (request_classify s base Hbase method url kw st resp Hresp).
  repeat split.
  - intros E. unfold WrappedSession.classify. rewrite E. reflexivity.
  - intros E. unfold WrappedSession.classify. rewrite E. reflexivity.
  - intros E. unfold WrappedSession.classify. rewrite E. reflexivity.
  - intros E. unfold WrappedSession.classify. rewrite E. reflexivity.
  - intros E. unfold WrappedSession.classify. rewrite E. reflexivity.
  - intros H2xx Hnot. unfold WrappedSession.classify.
    repeat case_decide; try reflexivity; try lia;
      exfalso; apply Hnot; set_solver.
  - intros s' base' method' url' kw' st' resp' Hbase' Hresp' E.
    rewrite (request_classify s' base' Hbase' method' url' kw' st' resp' Hresp').
    by apply classify_kind_by_status.
Qed.

(** C2 at a GET on the session [build_session] makes for an [https://]
    address, with a server that answers every attempt 429 (or 500): the
    parent class retries five times and raises [RetryError]; the branches of
    the chain that raise [RateLimitError] and [ServerError] are not reached.
    They are reached, and raise what the claim says, for a method off the
    whitelist and for an [http://] address. *)
Theorem persistent_429_raises_RetryError :
  let get_on base method status body :=
    let a := Service.session
               (Service.new (VStr base) VNone (Samples.world_answering status body)) in
    match a.1 with
    | Ok s => WrappedSession.request s method "/placetypes" Samples.no_kwargs a.2
    | Raise e => (Raise e, a.2)
    end in
  (get_on "https://example.test" "GET" 429 "slow down").1 =
    Raise (RetryError "too many error responses") ∧
  length (wire (world (get_on "https://example.test" "GET" 429 "slow down").2)) = 6%nat ∧
  (get_on "https://example.test" "GET" 500 "boom").1 =
    Raise (RetryError "too many error responses") ∧
  (get_on "https://example.test" "PATCH" 429 "slow down").1 =
    Raise (RateLimitError "slow down") ∧
  (get_on "http://example.test" "GET" 429 "slow down").1 =
    Raise (RateLimitError "slow down") ∧
  (get_on "http://example.test" "GET" 500 "boom").1 = Raise (ServerError "boom").
Proof. vm_compute. repeat split. Qed.

(** The text of the [GatewayTimeoutError] raised on 504. *)
Lemma gateway_timeout_text resp method url :
  status_code resp = 504 →
  WrappedSession.classify method url resp =
  Raise (GatewayTimeoutError
           "Your request timed out on the server. Consider reducing the complexity of your request.").
Proof. intros E. unfold WrappedSession.classify. rewrite E. reflexivity. Qed.

(** C3, as the code has it: when the parent class returns a response whose
    status is outside 2xx, the error raised carries the raw body text when
    it is a [BadRequestError], a [RateLimitError] or a [ServerError]; a
    [NotFoundError] carries ["404 <method> <url>"] and a
    [GatewayTimeoutError] a fixed advice. *)
Theorem error_message_by_kind
    (s : Session) (base method url : string) (kw : ReqKwargs) (st : State)
    (resp : Response) :
  s_base_url s = VStr base →
  terminal_response s method url kw st = Some resp →
  ¬ (200 ≤ status_code resp < 300) →
  ∃ e, (WrappedSession.request s method url kw st).1 = Raise e ∧
       kind_of e ≠ Builtin ∧
       message_of e =
         match kind_of e with
         | NotFound => "404 " +:+ method +:+ " " +:+ url
         | GatewayTimeout =>
             "Your request timed out on the server. Consider reducing the complexity of your request."
         | _ => text resp
         end.
Proof.
  intros Hbase Hresp Hne.
  rewrite (request_classify s base Hbase method url kw st resp Hresp).
  unfold WrappedSession.classify.
  repeat case_decide; try lia; eexists; (split; [reflexivity|]);
    split; (discriminate || reflexivity).
Qed.

Lemma error_message_by_kind_witness :
  ∃ e, (WrappedSession.request Samples.session0 "GET" "/find/atlantis" Samples.no_kwargs
          (Samples.answering 400 "bad placetype")).1 = Raise e ∧
       message_of e = "bad placetype".
Proof.
  destruct (error_message_by_kind Samples.session0 "https://example.test"
              "GET" "/find/atlantis" Samples.no_kwargs
              (Samples.answering 400 "bad placetype")
              {| status_code := 400; text := "bad placetype" |} eq_refl eq_refl)
    as (e & He & _ & Hm).
  - simpl. lia.
  - exists e. split; [exact He|].
    rewrite Hm. vm_compute in He. injection He as <-. reflexivity.
Defined.

(** C3 as stated fails: a 404 answered with the body ["no such place"]
    raises a [NotFoundError] whose message is not that body. *)
Lemma not_found_message_is_not_body :
  (WrappedSession.request Samples.session0 "GET" "/find/atlantis" Samples.no_kwargs
     (Samples.answering 404 "no such place")).1 =
    Raise (NotFoundError "404 GET /find/atlantis") ∧
  terminal_response Samples.session0 "GET" "/find/atlantis" Samples.no_kwargs
    (Samples.answering 404 "no such place") =
    Some {| status_code := 404; text := "no such place" |} ∧
  message_of (NotFoundError "404 GET /find/atlantis") ≠ "no such place".
Proof. repeat split. discriminate. Qed.

(** C9: a 2xx status other than 200 raises [ServerError] (with the body as
    its message); only 200 returns the response. *)
Theorem non_200_success_raises_ServerError
    (s : Session) (base method url : string) (kw : ReqKwargs) (st : State)
    (resp : Response) :
  s_base_url s = VStr base →
  terminal_response s method url kw st = Some resp →
  200 ≤ status_code resp < 300 →
  status_code resp ≠ 200 →
  (WrappedSession.request s method url kw st).1 = Raise (ServerError (text resp)).
Proof.
  intros Hbase Hresp Hrange Hne.
  rewrite (request_classify s base Hbase method url kw st resp Hresp).
  unfold WrappedSession.classify.
  repeat case_decide; try reflexivity; lia.
Qed.

Lemma non_200_success_raises_ServerError_witness :
  (WrappedSession.request Samples.session0 "GET" "/placetypes" Samples.no_kwargs
     (Samples.answering 204 "")).1 = Raise (ServerError "").
Proof.
  apply (non_200_success_raises_ServerError Samples.session0 "https://example.test"
           "GET" "/placetypes" Samples.no_kwargs (Samples.answering 204 "")
           {| status_code := 204; text := "" |} eq_refl eq_refl).
  - simpl. lia.
  - simpl. lia.
Defined.

(** ** Building a session *)

(** What [build_session] returns and the state it leaves, spelled out. *)
Lemma build_session_eq st b :
  self st !! "base_url" = Some (AVal b) →
  self st !! "auth" = Some AAuth →
  let u := Random.uniform (Float64.of_Z 1) (Float64.of_Z 3) (rng (world st)) in
  Service.build_session st =
  (Ok {| s_id := next_id (world st);
         s_base_url := b;
         s_timeout := Some (TIMEOUT (cls st));
         s_adapters :=
           <["https://" :=
               HTTPAdapter
                 {| total := 5; read := 2; backoff_factor := u.1;
                    method_whitelist :=
                      list_to_set ["HEAD"; "TRACE"; "GET"; "POST"; "PUT"; "OPTIONS"; "DELETE"];
                    status_forcelist := [429; 500; 502; 503] |}]>
             {[ "https://" := DefaultAdapter; "http://" := DefaultAdapter ]};
         s_headers :=
           <["User-Agent" := VStr ("dl-python/" +:+ version (world st))]>
             (<["Content-Type" := VStr "application/json"]>
                (<["Authorization" := auth_token (world st)]>
                   (default_headers (world st))));
         s_verify :=
           if cert_readable (world st)
           then VerifyFile (Service.path_join (here (world st)) "gd_bundle-g2-g1.crt")
           else VerifyOff |},
   {| world := set_rng u.2 (set_next_id (S (next_id (world st))) (world st));
      cls := cls st;
      self := self st |}).
Proof.
  intros Hb Ha u. subst u.
  unfold Service.build_session, Service.token, Service.new_WrappedSession,
    Service.draw_backoff, Auth.token, bind, getattr, get_world, get_class,
    modify_world, ret.
  rewrite Hb. cbn [world cls self]. rewrite Ha.
  cbn [world cls self].
  destruct (cert_readable (world st)) eqn:Hc; cbn; rewrite Hc; reflexivity.
Qed.

(** ** The session property *)

(** The session is reused: nothing changes. *)
Lemma session_reuse st s :
  self st !! "auth" = Some AAuth →
  self st !! "session_token" = Some (AVal (auth_token (world st))) →
  self st !! "current_session" = Some (ASession s) →
  Service.session st = (Ok s, st).
Proof.
  intros Ha Ht Hc. destruct st as [w c m]. cbn [world cls self] in *.
  unfold Service.session, Service.token, Auth.token, bind, getattr, get_world, ret.
  cbn [world cls self]. rewrite Ht. cbn [world cls self]. rewrite Ha.
  cbn [world cls self].
  rewrite decide_False by (intros H; by apply H).
  cbn [world cls self]. rewrite Hc. cbn. rewrite Hc. reflexivity.
Qed.

(** The session is built: the state after [build_session] with the two
    attributes written. *)
Lemma session_rebuild st b v c :
  self st !! "auth" = Some AAuth →
  self st !! "base_url" = Some (AVal b) →
  self st !! "session_token" = Some (AVal v) →
  self st !! "current_session" = Some c →
  v ≠ auth_token (world st) ∨ attr_truthy c = false →
  ∃ s w',
    Service.build_session st = (Ok s, {| world := w'; cls := cls st; self := self st |}) ∧
    Service.session st =
      (Ok s, {| world := w'; cls := cls st;
                self := <["session_token" := AVal (auth_token (world st))]>
                          (<["current_session" := ASession s]> (self st)) |}).
Proof.
  intros Ha Hb Ht Hc Hre.
  pose proof (build_session_eq st b Hb Ha) as Hbuild. cbv zeta in Hbuild.
  eexists _, _. split; [exact Hbuild|].
  destruct st as [w k m]. cbn [world cls self] in *.
  unfold Service.session, Service.token, Auth.token, bind, getattr, get_world,
    ret, setattr.
  cbn [world cls self]. rewrite Ht. cbn [world cls self]. rewrite Ha.
  cbn [world cls self].
  case_decide as Hd.
  - cbn [world cls self]. rewrite lookup_insert_eq. cbn [attr_truthy truthy negb].
    rewrite (build_session_eq _ b); cbn [world cls self];
      [|by rewrite lookup_insert_ne|by rewrite lookup_insert_ne].
    rewrite !lookup_insert_ne by done. rewrite Ha. cbn [world cls self].
    rewrite lookup_insert_ne by done. rewrite lookup_insert_eq.
    rewrite (insert_insert_eq m "current_session"). reflexivity.
  - destruct Hre as [Hre|Hre].
    { exfalso. apply Hre. congruence. }
    cbn [world cls self]. rewrite Hc, Hre. cbn [negb].
    rewrite Hbuild. cbn [world cls self].
    rewrite lookup_insert_ne by done. rewrite Ha. cbn [world cls self].
    rewrite lookup_insert_ne by done. rewrite lookup_insert_eq. reflexivity.
Qed.

(** ** The range of [random.uniform(1, 3)] *)
Section uniform_range.
Import Float64 Random.

(** A significand of at most 53 bits is not rounded. *)
Lemma round_small m e : 0 ≤ m < 2 ^ 53 → round (Dy m e) = Dy m e.
Proof.
  intros [H0 H1]. unfold round. cbn [mant expo].
  rewrite Z.abs_eq by lia.
  destruct (Z.leb_spec (Z.log2 m + 1 - prec) 0) as [_|Hd]; [reflexivity|].
  exfalso. unfold prec in Hd.
  destruct (Z.eq_dec m 0) as [->|Hm]; [simpl in Hd; lia|].
  assert (Z.log2 m < 53) by (apply Z.log2_lt_pow2; lia). lia.
Qed.

(** One bit too many: the last bit is dropped, to nearest, ties to even. *)
Lemma round_one_bit m e :
  2 ^ 53 ≤ m < 2 ^ 54 →
  ∃ q, round (Dy m e) = Dy q (e + 1) ∧
       m / 2 ≤ q ≤ m / 2 + 1 ∧ (m mod 2 = 0 → q = m / 2).
Proof.
  intros [H0 H1]. unfold round. cbn [mant expo].
  rewrite Z.abs_eq by lia.
  assert (Z.log2 m = 53) as Hl.
  { apply Z.log2_unique; lia. }
  rewrite Hl. unfold prec.
  change (53 + 1 - 53) with 1. change (1 <=? 0) with false. cbv iota.
  change (Z.shiftl 1 (1 - 1)) with 1.
  rewrite Z.shiftr_div_pow2 by lia. rewrite Z.shiftl_mul_pow2 by lia.
  change (2 ^ 1) with 2.
  rewrite Z.sgn_pos by lia. rewrite Z.mul_1_l.
  pose proof (Z.div_mod m 2 ltac:(lia)) as Hdm.
  pose proof (Z.mod_pos_bound m 2 ltac:(lia)) as Hmb.
  eexists. split; [reflexivity|].
  destruct (Z.ltb_spec (m - m / 2 * 2) 1); [lia|].
  destruct (Z.ltb_spec 1 (m - m / 2 * 2)); [lia|].
  destruct (Z.even (m / 2)); lia.
Qed.

(** [random()] is [k / 2^53] for some [0 <= k < 2^53]. *)
Lemma random_value g :
  ∃ k, (random g).1 = Dy k (-53) ∧ 0 ≤ k < 2 ^ 53.
Proof.
  unfold random, genrand_uint32. cbn [mt pos fst snd].
  set (x := mt g (pos g) mod 2 ^ 32).
  set (y := mt g (S (pos g)) mod 2 ^ 32).
  assert (0 ≤ x < 2 ^ 32) as Hx by (apply Z.mod_pos_bound; lia).
  assert (0 ≤ y < 2 ^ 32) as Hy by (apply Z.mod_pos_bound; lia).
  assert (0 ≤ Z.shiftr x 5 < 2 ^ 27) as Ha.
  { rewrite Z.shiftr_div_pow2 by lia. split; [apply Z.div_pos; lia|].
    apply Z.div_lt_upper_bound; lia. }
  assert (0 ≤ Z.shiftr y 6 < 2 ^ 26) as Hb.
  { rewrite Z.shiftr_div_pow2 by lia. split; [apply Z.div_pos; lia|].
    apply Z.div_lt_upper_bound; lia. }
  set (a := Z.shiftr x 5) in *. set (b := Z.shiftr y 6) in *.
  exists (a * 67108864 + b). split; [|lia].
  unfold of_Z. rewrite !round_small by lia.
  unfold mul at 2. cbn [mant expo]. rewrite round_small by lia.
  unfold add, align. cbn [mant expo].
  change (Z.min (0 + 0) 0) with 0. change (0 + 0 - 0) with 0. change (0 - 0) with 0.
  rewrite !Z.shiftl_0_r. rewrite round_small by lia.
  unfold mul. cbn [mant expo]. rewrite Z.mul_1_r.
  rewrite round_small by lia. reflexivity.
Qed.

(** [uniform(1, 3)] lies in the closed interval from 1 to 3. *)
Lemma uniform_1_3_range g :
  leb (of_Z 1) (uniform (of_Z 1) (of_Z 3) g).1 = true ∧
  leb (uniform (of_Z 1) (of_Z 3) g).1 (of_Z 3) = true.
Proof.
  unfold uniform.
  destruct (random_value g) as (k & Hk & Hr).
  destruct (random g) as [r g']. cbn [fst] in *. subst r.
  change (of_Z 1) with (Dy 1 0). change (of_Z 3) with (Dy 3 0).
  change (sub (Dy 3 0) (Dy 1 0)) with (Dy 2 0).
  unfold mul. cbn [mant expo]. change (0 + -53) with (-53).
  destruct (Z.lt_ge_cases (2 * k) (2 ^ 53)) as [Hs|Hs].
  - rewrite round_small by lia.
    unfold add, align. cbn [mant expo].
    change (Z.min 0 (-53)) with (-53).
    change (0 - -53) with 53. change (-53 - -53) with 0.
    rewrite Z.shiftl_0_r. change (Z.shiftl 1 53) with (2 ^ 53).
    destruct (round_one_bit (2 ^ 53 + 2 * k) (-53)) as (q & -> & Hq & _); [lia|].
    unfold leb, align. cbn [mant expo].
    change (Z.min 0 (-53 + 1)) with (-52). change (Z.min (-53 + 1) 0) with (-52).
    change (0 - -52) with 52. change (-53 + 1 - -52) with 0.
    rewrite Z.shiftl_0_r. change (Z.shiftl 1 52) with (2 ^ 52).
    change (Z.shiftl 3 52) with (3 * 2 ^ 52).
    split; apply Z.leb_le.
    + assert (2 ^ 52 ≤ (2 ^ 53 + 2 * k) / 2); [|lia].
      apply Z.div_le_lower_bound; lia.
    + assert ((2 ^ 53 + 2 * k) / 2 < 2 ^ 53); [|lia].
      apply Z.div_lt_upper_bound; lia.
  - destruct (round_one_bit (2 * k) (-53)) as (q & -> & _ & Hq); [lia|].
    rewrite Hq by (rewrite Z.mul_comm; apply Z.mod_mul; lia).
    replace (2 * k / 2) with k by (rewrite Z.mul_comm, Z.div_mul; lia).
    unfold add, align. cbn [mant expo].
    change (Z.min 0 (-53 + 1)) with (-52).
    change (0 - -52) with 52. change (-53 + 1 - -52) with 0.
    rewrite Z.shiftl_0_r. change (Z.shiftl 1 52) with (2 ^ 52).
    destruct (round_one_bit (2 ^ 52 + k) (-52)) as (q' & -> & Hq' & _); [lia|].
    unfold leb, align. cbn [mant expo].
    change (Z.min 0 (-52 + 1)) with (-51). change (Z.min (-52 + 1) 0) with (-51).
    change (0 - -51) with 51. change (-52 + 1 - -51) with 0.
    rewrite Z.shiftl_0_r. change (Z.shiftl 1 51) with (2 ^ 51).
    change (Z.shiftl 3 51) with (3 * 2 ^ 51).
    split; apply Z.leb_le.
    + assert (2 ^ 51 ≤ (2 ^ 52 + k) / 2); [|lia].
      apply Z.div_le_lower_bound; lia.
    + assert ((2 ^ 52 + k) / 2 < 3 * 2 ^ 51); [|lia].
      apply Z.div_lt_upper_bound; lia.
Qed.

End uniform_range.

Lemma Ok_inj {A} (a b : A) : Ok a = Ok b → a = b.
Proof. intros E. injection E. auto. Qed.

(** What [build_session] gives on an instance with its attributes. *)
Lemma build_session_facts st b s st' :
  self st !! "base_url" = Some (AVal b) →
  self st !! "auth" = Some AAuth →
  Service.build_session st = (Ok s, st') →
  s_id s = next_id (world st) ∧
  s_base_url s = b ∧
  configured s ∧
  backoff_of s =
    Some (Random.uniform (Float64.of_Z 1) (Float64.of_Z 3) (rng (world st))).1 ∧
  s_headers s !! "Authorization" = Some (auth_token (world st)) ∧
  s_verify s =
    (if cert_readable (world st)
     then VerifyFile (Service.path_join (here (world st)) "gd_bundle-g2-g1.crt")
     else VerifyOff) ∧
  st' = {| world := set_rng (Random.uniform (Float64.of_Z 1) (Float64.of_Z 3)
                               (rng (world st))).2
                      (set_next_id (S (next_id (world st))) (world st));
           cls := cls st; self := self st |}.
Proof.
  intros Hb Ha E. rewrite (build_session_eq st b Hb Ha) in E.
  cbv zeta in E. apply pair_equal_spec in E as [Es Est].
  apply Ok_inj in Es. subst s st'.
  pose proof (uniform_1_3_range (rng (world st))) as [Hlo Hhi].
  split; [reflexivity|]. split; [reflexivity|].
  split.
  { eexists. split; [apply lookup_insert_eq|].
    cbn [total read method_whitelist status_forcelist backoff_factor].
    split; [reflexivity|]. split; [reflexivity|]. split; [reflexivity|].
    split; [reflexivity|]. split; [exact Hlo|exact Hhi]. }
  split.
  { unfold backoff_of. cbn [s_adapters]. rewrite lookup_insert_eq. reflexivity. }
  split.
  { cbn [s_headers]. rewrite !lookup_insert_ne by done. apply lookup_insert_eq. }
  split; reflexivity.
Qed.

(** Accessing the session always succeeds and keeps the invariant; it builds
    a session exactly on a stale instance and otherwise changes nothing. *)
Lemma session_outcome st :
  inv st →
  ∃ s st',
    Service.session st = (Ok s, st') ∧ inv st' ∧
    self st' !! "current_session" = Some (ASession s) ∧
    self st' !! "session_token" = Some (AVal (auth_token (world st))) ∧
    auth_token (world st') = auth_token (world st) ∧
    http_log (world st') = http_log (world st) ∧
    now (world st') = now (world st) ∧
    cls st' = cls st ∧
    self st' !! "cache" = self st !! "cache" ∧
    configured s ∧
    ((stale st ∧ s_id s = next_id (world st) ∧
      next_id (world st') = S (next_id (world st)) ∧
      backoff_of s =
        Some (Random.uniform (Float64.of_Z 1) (Float64.of_Z 3) (rng (world st))).1 ∧
      Service.build_session st =
        (Ok s, {| world := world st'; cls := cls st; self := self st |}))
     ∨ (¬ stale st ∧ st' = st ∧ self st !! "current_session" = Some (ASession s))).
Proof.
  intros [Ha [b Hb] [v Hv] Hs Hu Hc].
  assert (∃ c, self st !! "current_session" = Some c) as [c Hcur].
  { destruct Hs as [?|(s & ? & _)]; eauto. }
  destruct (decide (v ≠ auth_token (world st) ∨ attr_truthy c = false)) as [Hre|Hre].
  - destruct (session_rebuild st b v c Ha Hb Hv Hcur Hre) as (s & w' & Hbuild & Hsess).
    destruct (build_session_facts st b s _ Hb Ha Hbuild)
      as (Hid & _ & Hconf & Hbo & _ & _ & Hst').
    apply (f_equal world) in Hst'. cbn [world] in Hst'.
    eexists s, _. split; [exact Hsess|].
    cbn [world cls self].
    split.
    { split; cbn [world cls self].
      - by rewrite !lookup_insert_ne.
      - exists b. by rewrite !lookup_insert_ne.
      - eexists. apply lookup_insert_eq.
      - right. exists s. rewrite lookup_insert_ne by done. rewrite lookup_insert_eq.
        split; [reflexivity|]. split; [|exact Hconf].
        rewrite Hst'. cbn. lia.
      - by rewrite !lookup_insert_ne.
      - intros Hp. destruct (Hc Hp) as (m & t & Hm). exists m, t.
        by rewrite !lookup_insert_ne. }
    split. { rewrite lookup_insert_ne by done. apply lookup_insert_eq. }
    split. { apply lookup_insert_eq. }
    split. { rewrite Hst'. reflexivity. }
    split. { rewrite Hst'. reflexivity. }
    split. { rewrite Hst'. reflexivity. }
    split; [reflexivity|].
    split. { by rewrite !lookup_insert_ne. }
    split; [exact Hconf|].
    left. split.
    { destruct Hre as [Hne|Hf].
      - right. rewrite Hv. congruence.
      - left. rewrite Hcur. destruct Hs as [E|(s0 & E & _)];
          rewrite Hcur in E; [exact E|].
        injection E as ->. discriminate Hf. }
    split; [exact Hid|]. split; [rewrite Hst'; reflexivity|].
    split; [exact Hbo|exact Hbuild].
  - assert (v = auth_token (world st)) as ->.
    { destruct (decide (v = auth_token (world st))); [done|]. exfalso. apply Hre. by left. }
    destruct Hs as [E|(s & E & Hlt & Hconf)].
    { exfalso. apply Hre. right. rewrite Hcur in E. by injection E as ->. }
    exists s, st. split; [by apply session_reuse|].
    split; [by split; eauto|].
    split; [exact E|]. split; [exact Hv|].
    do 5 (split; [reflexivity|]). split; [exact Hconf|].
    right. split; [|by split].
    intros [Hn|Hn]; [rewrite E in Hn; discriminate Hn|]. by apply Hn.
Qed.

(** ** Endpoint methods stop at [self.url] *)

(** Every endpoint body reads [self.session] and then [self.url]; the second
    read raises, whatever would have followed. *)
Lemma fails_at_url {A} (k : Session → attr → M A) st :
  inv st →
  ∃ st',
    (do s <- Service.session; do u <- getattr "url"; k s u) st =
      (Raise (AttributeError "url"), st') ∧
    st' = (Service.session st).2 ∧
    inv st' ∧
    http_log (world st') = http_log (world st) ∧
    cls st' = cls st.
Proof.
  intros Hinv.
  destruct (session_outcome st Hinv)
    as (s & st' & Hs & Hinv' & _ & _ & _ & Hlog & _ & Hcls & _).
  exists st'. unfold bind at 1. rewrite Hs. cbn [snd].
  unfold bind, getattr. rewrite (inv_url _ Hinv').
  split; [reflexivity|]. split; [reflexivity|].
  split; [exact Hinv'|]. split; [exact Hlog|exact Hcls].
Qed.

(** Bound arguments come one per parameter. *)
Lemma bind_positional_length ps args vs rest :
  Call.bind_positional ps args = Some (vs, rest) →
  (length vs + length rest = length ps)%nat.
Proof.
  revert ps vs rest. induction args as [|a args IH]; intros ps vs rest.
  - destruct ps; simpl; intros E; simplify_eq; reflexivity.
  - destruct ps as [|p ps]; simpl; [discriminate|].
    destruct (Call.bind_positional ps args) as [[vs' rest']|] eqn:E; [|discriminate].
    intros E'. simplify_eq. simpl. f_equal. by apply IH.
Qed.

Lemma bind_keywords_length ps kw ws :
  Call.bind_keywords ps kw = Some ws → length ws = length ps.
Proof.
  revert ws. induction ps as [|[n d] ps IH]; intros ws; simpl.
  - intros E. simplify_eq. reflexivity.
  - destruct (match Call.kw_lookup n kw with Some v => Some v | None => d end);
      [|discriminate].
    destruct (Call.bind_keywords ps kw) as [ws'|]; [|discriminate].
    intros E. simplify_eq. simpl. f_equal. by apply IH.
Qed.

Lemma bind_call_length sg args kw vs extra :
  Call.bind_call sg args kw = Ok (vs, extra) →
  length vs = length (Call.sig_params sg).
Proof.
  unfold Call.bind_call.
  destruct (Call.bind_positional _ _) as [[ps rest]|] eqn:Ep; [|discriminate].
  destruct (_ || _); [discriminate|].
  destruct (Call.bind_keywords rest kw) as [ws|] eqn:Ek; [|discriminate].
  apply bind_positional_length in Ep. apply bind_keywords_length in Ek.
  intros E.
  assert (vs = ps ++ ws) as ->.
  { destruct (filter _ kw), (Call.sig_varkw sg); congruence. }
  rewrite length_app. lia.
Qed.

(** A call that binds to the method is one the wrapper accepts. *)
Lemma bind_call_wrapper sg args kw r :
  Call.bind_call sg args kw = Ok r → Call.wrapper_accepts kw = true.
Proof.
  unfold Call.bind_call, Call.wrapper_accepts.
  destruct (Call.bind_positional _ _) as [[ps rest]|]; [|discriminate].
  destruct (bool_decide (Exists _ kw)) eqn:Ex; [discriminate|].
  destruct (bool_decide (NoDup kw.*1)) eqn:End; [|discriminate].
  intros _. cbn [andb]. apply bool_decide_eq_true.
  apply bool_decide_eq_false in Ex. intros Hin. apply Ex.
  apply list_elem_of_fmap in Hin as (kv & Hk & Hkv).
  apply Exists_exists. exists kv. split; [done|]. rewrite <- Hk. by left.
Qed.

(** On an empty cache the wrapper goes straight to the method; when the
    method raises, nothing is stored and the error propagates. *)
Lemma cachedmethod_raise keyf method args kwargs st e st' :
  inv st → cls st = PlacesCls →
  Call.wrapper_accepts kwargs = true →
  method args kwargs st = (Raise e, st') →
  Call.cachedmethod "cache" keyf method args kwargs st = (Raise e, st').
Proof.
  intros Hinv Hcls Hw Hm.
  destruct (inv_cache _ Hinv Hcls) as (m & t & Hc).
  destruct st as [w c slf]. cbn [world cls self] in *.
  unfold Call.cachedmethod. rewrite Hw. cbn [negb].
  unfold bind at 1, getattr. cbn [world cls self].
  rewrite Hc. unfold bind at 1, get_world. cbn [world cls self].
  unfold bind at 1, setattr. cbn [world cls self fst snd Cachetools.getitem].
  change (Cachetools.getitem (now w) (keyf args kwargs) (Cachetools.empty m t))
    with (@None JSON, Cachetools.empty m t).
  cbn [fst snd]. rewrite (insert_id slf "cache") by exact Hc.
  unfold bind at 1. rewrite Hm. reflexivity.
Qed.

(** A cached method whose body stops at [self.url]. *)
Lemma cached_call_outcome name sg
    (body : list pyval * Cachetools.kwargs_t → M JSON) args kwargs st :
  inv st → cls st = PlacesCls →
  (∀ vs extra,
     Call.bind_call sg args kwargs = Ok (vs, extra) →
     ∃ k, body (vs, extra) =
          (do s <- Service.session; do u <- getattr "url"; k s u)) →
  ∃ x st',
    Call.cachedmethod "cache" (Cachetools.partial_hashkey name)
      (λ a kw, do b <- lift (Call.bind_call sg a kw); body b) args kwargs st =
      (Raise x, st') ∧
    inv st' ∧ http_log (world st') = http_log (world st) ∧ cls st' = cls st ∧
    (∀ r, Call.bind_call sg args kwargs = Ok r →
          x = AttributeError "url" ∧ st' = (Service.session st).2).
Proof.
  intros Hinv Hcls Hbody.
  destruct (Call.wrapper_accepts kwargs) eqn:Hw; cycle 1.
  { eexists _, st. split.
    { unfold Call.cachedmethod. rewrite Hw. reflexivity. }
    split; [exact Hinv|]. split; [reflexivity|]. split; [reflexivity|].
    intros r Hr. apply bind_call_wrapper in Hr. congruence. }
  destruct (Call.bind_call sg args kwargs) as [[vs extra]|x] eqn:Eb.
  - destruct (Hbody vs extra eq_refl) as [k Hk].
    destruct (fails_at_url k st Hinv) as (st' & Hf & Hst' & Hinv' & Hlog & Hcls').
    exists (AttributeError "url"), st'. split.
    { apply cachedmethod_raise; [done..|].
      unfold bind at 1, lift. rewrite Eb. rewrite Hk. exact Hf. }
    split; [exact Hinv'|]. split; [exact Hlog|]. split; [exact Hcls'|].
    intros r _. by split.
  - exists x, st. split.
    { apply cachedmethod_raise; [done..|].
      unfold bind at 1, lift. rewrite Eb. reflexivity. }
    split; [exact Hinv|]. split; [reflexivity|]. split; [reflexivity|].
    intros r Hr. discriminate Hr.
Qed.

(** Every endpoint method raises; a call that binds raises
    [AttributeError] at [self.url], after the session has been read. *)
Lemma call_outcome e st :
  inv st → cls st = PlacesCls →
  ∃ x st',
    Places.call e st = (Raise x, st') ∧
    inv st' ∧ http_log (world st') = http_log (world st) ∧ cls st' = cls st ∧
    (binds e = true → x = AttributeError "url" ∧ st' = (Service.session st).2).
Proof.
  intros Hinv Hcls.
  assert (∀ k : Session → attr → M JSON,
            ∃ x st',
              (do s <- Service.session; do u <- getattr "url"; k s u) st =
                (Raise x, st') ∧
              inv st' ∧ http_log (world st') = http_log (world st) ∧
              cls st' = cls st ∧
              (true = true → x = AttributeError "url" ∧
                             st' = (Service.session st).2)) as Hplain.
  { intros k. destruct (fails_at_url k st Hinv) as (st' & Hf & Hst' & Hi & Hl & Hc).
    exists (AttributeError "url"), st'.
    split; [exact Hf|]. split; [exact Hi|]. split; [exact Hl|].
    split; [exact Hc|]. intros _. by split. }
  destruct e; cbn [Places.call binds].
  - apply Hplain.
  - apply Hplain.
  - destruct (cached_call_outcome "find" Places.find_sig
                (λ b, match b with
                      | ([path], extra) => Places.find_body path extra
                      | _ => raise (TypeError "find")
                      end) args kwargs st Hinv Hcls)
      as (x & st' & Hx & Hi & Hl & Hc & Hb).
    { intros vs extra Eb. apply bind_call_length in Eb.
      destruct vs as [|path [|??]]; try discriminate Eb. eexists. reflexivity. }
    exists x, st'. split; [exact Hx|]. split; [exact Hi|]. split; [exact Hl|].
    split; [exact Hc|].
    destruct (Call.bind_call Places.find_sig args kwargs) eqn:E; [|discriminate].
    intros _. eapply Hb. reflexivity.
  - destruct (cached_call_outcome "shape" Places.shape_sig
                (λ b, match b with
                      | ([slug; output; geom], _) => Places.shape_body slug output geom
                      | _ => raise (TypeError "shape")
                      end) args kwargs st Hinv Hcls)
      as (x & st' & Hx & Hi & Hl & Hc & Hb).
    { intros vs extra Eb. apply bind_call_length in Eb.
      destruct vs as [|a1 [|a2 [|a3 [|??]]]]; try discriminate Eb.
      eexists. reflexivity. }
    exists x, st'. split; [exact Hx|]. split; [exact Hi|]. split; [exact Hl|].
    split; [exact Hc|].
    destruct (Call.bind_call Places.shape_sig args kwargs) eqn:E; [|discriminate].
    intros _. eapply Hb. reflexivity.
  - destruct (cached_call_outcome "prefix" Places.prefix_sig
                (λ b, match b with
                      | ([slug; output; placetype; geom], _) =>
                          Places.prefix_body slug output placetype geom
                      | _ => raise (TypeError "prefix")
                      end) args kwargs st Hinv Hcls)
      as (x & st' & Hx & Hi & Hl & Hc & Hb).
    { intros vs extra Eb. apply bind_call_length in Eb.
      destruct vs as [|a1 [|a2 [|a3 [|a4 [|??]]]]]; try discriminate Eb.
      eexists. reflexivity. }
    exists x, st'. split; [exact Hx|]. split; [exact Hi|]. split; [exact Hl|].
    split; [exact Hc|].
    destruct (Call.bind_call Places.prefix_sig args kwargs) eqn:E; [|discriminate].
    intros _. eapply Hb. reflexivity.
  - apply Hplain.
  - apply Hplain.
  - apply Hplain.
  - apply Hplain.
  - apply Hplain.
  - apply Hplain.
Qed.

(** ** Every reachable state satisfies the invariant *)

Lemma Service_init_eq url token st :
  Service.__init__ url token st =
  (Ok tt,
   {| world := if truthy token then set_auth_token token (world st) else world st;
      cls := cls st;
      self := <["session_token" := AVal VNone]>
                (<["current_session" := AVal VNone]>
                   (<["base_url" := AVal url]> (<["auth" := AAuth]> (self st)))) |}).
Proof.
  unfold Service.__init__, bind, setattr, Auth.set_token, modify_world, ret.
  cbn [world cls self]. destruct (truthy token); reflexivity.
Qed.

Lemma init_attrs_inv w c (m : gmap string attr) url :
  m !! "url" = None →
  (c = PlacesCls → ∃ mx t, m !! "cache" = Some (ACache (Cachetools.empty mx t))) →
  inv {| world := w; cls := c;
         self := <["session_token" := AVal VNone]>
                   (<["current_session" := AVal VNone]>
                      (<["base_url" := AVal url]> (<["auth" := AAuth]> m))) |}.
Proof.
  intros Hu Hc. split; cbn [world cls self].
  - rewrite !lookup_insert_ne by done. apply lookup_insert_eq.
  - exists url. rewrite !lookup_insert_ne by done. apply lookup_insert_eq.
  - eexists. apply lookup_insert_eq.
  - left. rewrite lookup_insert_ne by done. apply lookup_insert_eq.
  - by rewrite !lookup_insert_ne.
  - intros Hp. destruct (Hc Hp) as (mx & t & Hm). exists mx, t.
    by rewrite !lookup_insert_ne.
Qed.

Lemma Service_new_inv url token w : inv (Service.new url token w).
Proof.
  unfold Service.new. rewrite Service_init_eq. cbn [snd world cls self].
  apply init_attrs_inv; [apply lookup_empty|discriminate].
Qed.

Lemma Places_new_eq url token maxsize ttl w :
  ∃ u w',
    Places.new url token maxsize ttl w =
    {| world := w'; cls := PlacesCls;
       self := <["cache" := ACache (Cachetools.empty maxsize ttl)]>
                 (<["session_token" := AVal VNone]>
                    (<["current_session" := AVal VNone]>
                       (<["base_url" := AVal u]> (<["auth" := AAuth]> ∅)))) |} ∧
    next_id w' = next_id w ∧ http_log w' = http_log w.
Proof.
  unfold Places.new, Places.__init__, bind at 1, get_world. cbn [world cls self].
  unfold bind at 1. rewrite Service_init_eq. cbn [world cls self].
  unfold setattr. cbn [snd world cls self].
  eexists _, _. split; [reflexivity|]. destruct (truthy token); by split.
Qed.

Lemma Places_new_inv url token maxsize ttl w :
  inv (Places.new url token maxsize ttl w).
Proof.
  destruct (Places_new_eq url token maxsize ttl w) as (u & w' & -> & _).
  split; cbn [world cls self].
  - rewrite !lookup_insert_ne by done. apply lookup_insert_eq.
  - exists u. rewrite !lookup_insert_ne by done. apply lookup_insert_eq.
  - eexists. rewrite lookup_insert_ne by done. apply lookup_insert_eq.
  - left. rewrite !lookup_insert_ne by done. apply lookup_insert_eq.
  - rewrite !lookup_insert_ne by done. apply lookup_empty.
  - intros _. exists maxsize, ttl. apply lookup_insert_eq.
Qed.

Lemma token_setter_eq t st :
  inv st →
  Service.token_setter t st =
  (Ok tt, {| world := set_auth_token t (world st); cls := cls st; self := self st |}).
Proof.
  intros Hinv. unfold Service.token_setter, bind, getattr.
  rewrite (inv_auth _ Hinv). reflexivity.
Qed.

Lemma token_setter_inv t st : inv st → inv (Service.token_setter t st).2.
Proof.
  intros Hinv. rewrite token_setter_eq by done. cbn [snd].
  destruct Hinv as [Ha Hb Hv Hs Hu Hc]. by split.
Qed.

Lemma tick_inv t st : inv st → inv (tick t st).
Proof. intros [Ha Hb Hv Hs Hu Hc]. by split. Qed.

Lemma reachable_inv st : reachable st → inv st.
Proof.
  induction 1 as [url token w|url token maxsize ttl w|st _ IH|t st _ IH|t st _ IH
                  |e st _ IH Hcls].
  - apply Service_new_inv.
  - apply Places_new_inv.
  - destruct (session_outcome st IH) as (s & st' & -> & Hinv' & _). exact Hinv'.
  - by apply token_setter_inv.
  - by apply tick_inv.
  - destruct (call_outcome e st IH Hcls) as (x & st' & -> & Hinv' & _). exact Hinv'.
Qed.

(** ** Session lifecycle *)

(** C1: on every instance, a session access, a change of the shared token
    and a second access give two distinct session objects, and a third
    access with the token left alone gives the second object again.  A
    session is built exactly on a stale instance (no session yet, or the
    token last seen differs from the current one): then the object returned
    is the one [build_session] has just allocated; otherwise it is the object
    held, and the state does not change. *)
Theorem session_rebuilt_on_token_change (st : State) (t : pyval) :
  reachable st →
  t ≠ auth_token (world st) →
  let a1 := Service.session st in
  let a2 := Service.session (Service.token_setter t a1.2).2 in
  let a3 := Service.session a2.2 in
  (∃ s1 s2, a1.1 = Ok s1 ∧ a2.1 = Ok s2 ∧ a3.1 = Ok s2 ∧
            s_id s1 ≠ s_id s2 ∧ a3.2 = a2.2) ∧
  (∃ s, a1.1 = Ok s ∧
        (stale st →
           s_id s = next_id (world st) ∧ (Service.build_session st).1 = Ok s ∧
           self st !! "current_session" ≠ Some (ASession s)) ∧
        (¬ stale st →
           self st !! "current_session" = Some (ASession s) ∧ a1.2 = st)).
Proof.
  intros Hreach Ht a1 a2 a3. subst a1 a2 a3.
  pose proof (reachable_inv st Hreach) as Hinv.
  destruct (session_outcome st Hinv)
    as (s1 & st1 & E1 & Hinv1 & Hcur1 & Htok1 & Hauth1 & _ & _ & _ & _ & _ & Hcase1).
  rewrite E1. cbn [fst snd].
  rewrite (token_setter_eq t st1 Hinv1). cbn [snd].
  set (st1' := {| world := set_auth_token t (world st1); cls := cls st1;
                  self := self st1 |}).
  assert (inv st1') as Hinv1'.
  { destruct Hinv1 as [Ha Hb Hv Hs Hu Hc]. by split. }
  assert (s_id s1 < next_id (world st1))%nat as Hlt1.
  { destruct (inv_session _ Hinv1) as [E|(s & E & Hlt & _)];
      rewrite Hcur1 in E; simplify_eq. exact Hlt. }
  destruct (session_outcome st1' Hinv1')
    as (s2 & st2 & E2 & Hinv2 & Hcur2 & Htok2 & Hauth2 & _ & _ & _ & _ & _ & Hcase2).
  rewrite E2. cbn [fst snd].
  assert (Service.session st2 = (Ok s2, st2)) as E3.
  { apply session_reuse; [apply (inv_auth _ Hinv2)| |exact Hcur2].
    rewrite Htok2, Hauth2. reflexivity. }
  rewrite E3. cbn [fst snd].
  split.
  - exists s1, s2. repeat (split; [reflexivity|]). split; [|reflexivity].
    destruct Hcase2 as [(_ & Hid2 & _)|(Hfresh & _)].
    + rewrite Hid2. subst st1'. cbn [world next_id set_auth_token]. lia.
    + exfalso. apply Hfresh. right. subst st1'. cbn [world self auth_token set_auth_token].
      rewrite Htok1. intros E. apply Ht. congruence.
  - exists s1. split; [reflexivity|].
    destruct Hcase1 as [(Hst & Hid & _ & _ & Hb)|(Hn & -> & Hc)].
    + split; [|intros Hn; contradiction].
      intros _. split; [exact Hid|]. split; [by rewrite Hb|].
      intros E. destruct (inv_session _ Hinv) as [E'|(s & E' & Hlt & _)];
        rewrite E in E'; simplify_eq. lia.
    + split; [intros Hs; contradiction|]. intros _. by split.
Qed.

Lemma session_rebuilt_on_token_change_witness :
  let st := Places.new VNone VNone 10 600 Samples.world0 in
  let a1 := Service.session st in
  let a2 := Service.session (Service.token_setter (VStr "token-b") a1.2).2 in
  let a3 := Service.session a2.2 in
  ∃ s1 s2, a1.1 = Ok s1 ∧ a2.1 = Ok s2 ∧ a3.1 = Ok s2 ∧
           s_id s1 ≠ s_id s2 ∧ a3.2 = a2.2.
Proof.
  intros st.
  refine (proj1 (session_rebuilt_on_token_change st (VStr "token-b")
                   (reach_Places VNone VNone 10 600 Samples.world0) _)).
  vm_compute. discriminate.
Defined.

(** ** What a session is built with *)

(** What a request does to the state: it may log the request as handed to
    the parent class and add attempts to the wire, each under the policy of
    an adapter of the session. *)
Lemma request_state s method url kw st :
  ∃ l log,
    (WrappedSession.request s method url kw st).2 =
      {| world := set_wire (wire (world st) ++ l) (set_http_log log (world st));
         cls := cls st; self := self st |} ∧
    Forall (λ a, ∀ p', at_retry a = Some p' →
                       ∃ k p, s_adapters s !! k = Some (HTTPAdapter p) ∧
                              same_policy p p') l.
Proof.
  unfold WrappedSession.request. destruct (s_base_url s) as [|base].
  - exists [], (http_log (world st)). split; [|constructor].
    destruct st as [w c m]. destruct w. cbn. by rewrite app_nil_r.
  - set (rq := {| rq_method := method |}).
    destruct (super_request_state s rq st) as (l & El & Hl).
    exists l, (http_log (world st) ++ [rq]). split.
    + unfold bind.
      destruct (WrappedSession.super_request s rq st) as [[r|e] st'];
        cbn [snd] in El |- *; subst st'; reflexivity.
    + eapply Forall_impl; [exact Hl|]. intros a [_ Ha] p' Hp'.
      destruct (Ha p' Hp') as (p & Hg & Hsame).
      destruct (get_adapter_mounted _ _ _ Hg) as [k Hk]. by exists k, p.
Qed.

(** Sending a request changes neither the instance nor the generator. *)
Lemma request_frame s method url kw st :
  self (WrappedSession.request s method url kw st).2 = self st ∧
  rng (world (WrappedSession.request s method url kw st).2) = rng (world st) ∧
  auth_token (world (WrappedSession.request s method url kw st).2) =
    auth_token (world st) ∧
  cls (WrappedSession.request s method url kw st).2 = cls st.
Proof.
  destruct (request_state s method url kw st) as (l & log & E & _).
  rewrite E. by repeat split.
Qed.

(** C7: building a session never fails, whatever the state of the
    certificate bundle next to the module: when the file can be opened the
    session verifies TLS against it, and otherwise verification is switched
    off. *)
Theorem build_session_tls_fallback (st : State) :
  reachable st →
  ∃ s st',
    Service.build_session st = (Ok s, st') ∧
    (cert_readable (world st) = true →
       s_verify s =
         VerifyFile (Service.path_join (here (world st)) "gd_bundle-g2-g1.crt")) ∧
    (cert_readable (world st) = false → s_verify s = VerifyOff).
Proof.
  intros Hreach. pose proof (reachable_inv st Hreach) as Hinv.
  destruct (inv_base _ Hinv) as [b Hb].
  pose proof (build_session_eq st b Hb (inv_auth _ Hinv)) as E. cbv zeta in E.
  eexists _, _. split; [exact E|]. cbn [s_verify].
  split; intros ->; reflexivity.
Qed.

Lemma build_session_tls_fallback_witness :
  (∃ s st', Service.build_session (Service.new (VStr "https://example.test") VNone
                                      Samples.world0) = (Ok s, st') ∧
            s_verify s =
              VerifyFile "/site-packages/descarteslabs/services/gd_bundle-g2-g1.crt") ∧
  (∃ s st', Service.build_session (Service.new (VStr "https://example.test") VNone
                                      Samples.world_nocert) = (Ok s, st') ∧
            s_verify s = VerifyOff).
Proof.
  split.
  - destruct (build_session_tls_fallback
                (Service.new (VStr "https://example.test") VNone Samples.world0)
                (reach_Service _ _ _)) as (s & st' & E & Hyes & _).
    exists s, st'. split; [exact E|]. rewrite Hyes by reflexivity. reflexivity.
  - destruct (build_session_tls_fallback
                (Service.new (VStr "https://example.test") VNone Samples.world_nocert)
                (reach_Service _ _ _)) as (s & st' & E & _ & Hno).
    exists s, st'. split; [exact E|]. apply Hno. reflexivity.
Defined.

(** C6 as stated fails at the upper end: with the generator at its largest
    output, [random()] is [1 - 2^-53], the sum [1 + 2 * random()] rounds to
    3.0, and the session is built with a backoff factor that is not below 3. *)
Lemma backoff_can_be_3 :
  let built := Service.build_session
                 (Service.new (VStr "https://example.test") VNone Samples.world_max) in
  ∃ s, built.1 = Ok s ∧
       backoff_of s = Some (Float64.Dy 6755399441055744 (-51)) ∧
       Float64.ltb (Float64.Dy 6755399441055744 (-51)) (Float64.of_Z 3) = false ∧
       Float64.leb (Float64.of_Z 3) (Float64.Dy 6755399441055744 (-51)) = true.
Proof.
  intros built.
  exists (match built.1 with Ok s => s | Raise _ => Samples.session0 end).
  split; [vm_compute; reflexivity|].
  split; [vm_compute; reflexivity|].
  split; vm_compute; reflexivity.
Qed.

(** The rounding above is that of IEEE 754 binary64: at the largest output
    of the generator, and at a middling one, the model agrees with the
    Standard Library's specification of [+], [-] and [*]. *)
Lemma uniform_agrees_with_binary64 :
  Forall
    (λ g, let one := Float64.to_spec (Float64.of_Z 1) in
          let three := Float64.to_spec (Float64.of_Z 3) in
          Float64.to_spec (Random.uniform (Float64.of_Z 1) (Float64.of_Z 3) g).1 =
          SpecFloat.SFadd 53 1024 one
            (SpecFloat.SFmul 53 1024 (SpecFloat.SFsub 53 1024 three one)
               (Float64.to_spec (Random.random g).1)))
    [Samples.constant_rng (2 ^ 32 - 1); Samples.constant_rng 0;
     Samples.constant_rng 2863311530; Samples.constant_rng 123456789].
Proof. repeat constructor. Qed.

(** ** The endpoint methods never get to the server *)





(** ** Cache keys *)
Section hashkey.
Import Cachetools.

Global Instance item_le_trans : Transitive item_le.
Proof. intros x y z. unfold item_le. apply transitivity. Qed.

Global Instance item_le_total : Total item_le.
Proof. intros x y. unfold item_le. apply (base.total String.le). Qed.

(** In the items of a dictionary the key determines the item. *)
Lemma item_by_key (kw : kwargs_t) x y :
  NoDup kw.*1 → x ∈ kw → y ∈ kw → x.1 = y.1 → x = y.
Proof.
  induction kw as [|z kw IH]; intros Hnd Hx Hy E.
  - inversion Hx.
  - rewrite fmap_cons in Hnd. apply NoDup_cons in Hnd as [Hz Hnd].
    apply elem_of_cons in Hx as [->|Hx]; apply elem_of_cons in Hy as [->|Hy].
    + reflexivity.
    + exfalso. apply Hz. rewrite E. by apply list_elem_of_fmap_2.
    + exfalso. apply Hz. rewrite <- E. by apply list_elem_of_fmap_2.
    + by apply IH.
Qed.

(** Sorting the items of one dictionary gives one list, whatever order the
    dictionary yields them in. *)
Lemma sorted_perm (kw1 kw2 : kwargs_t) :
  NoDup kw1.*1 → kw1 ≡ₚ kw2 → sorted kw1 = sorted kw2.
Proof.
  intros Hnd Hp. unfold sorted.
  assert (∀ x1 x2,
            x1 ∈ merge_sort item_le kw1 → x2 ∈ merge_sort item_le kw2 →
            item_le x1 x2 → item_le x2 x1 → x1 = x2) as Hanti.
  { intros x1 x2 H1 H2 H12 H21.
    rewrite merge_sort_Permutation in H1.
    rewrite merge_sort_Permutation, <- Hp in H2.
    apply (item_by_key kw1 x1 x2 Hnd H1 H2).
    unfold item_le in H12, H21. exact (anti_symm String.le _ _ H12 H21). }
  apply (StronglySorted_unique_strong item_le _ _ Hanti).
  - apply (StronglySorted_merge_sort item_le); apply _.
  - apply (StronglySorted_merge_sort item_le); apply _.
  - by rewrite !merge_sort_Permutation.
Qed.

End hashkey.

(** C5: the key of a cached call does not depend on the order in which the
    keyword arguments are presented: for every operation name, positional
    arguments and two orderings of one keyword mapping, the keys are equal,
    and so every cache answers the two lookups alike. *)
Theorem hashkey_keyword_order_independent
    (name : string) (args : list pyval) (kw1 kw2 : Cachetools.kwargs_t) :
  NoDup kw1.*1 →
  kw1 ≡ₚ kw2 →
  Cachetools.partial_hashkey name args kw1 = Cachetools.partial_hashkey name args kw2 ∧
  ∀ now c,
    Cachetools.getitem now (Cachetools.partial_hashkey name args kw1) c =
    Cachetools.getitem now (Cachetools.partial_hashkey name args kw2) c.
Proof.
  intros Hnd Hp.
  assert (Cachetools.partial_hashkey name args kw1 =
          Cachetools.partial_hashkey name args kw2) as E.
  { unfold Cachetools.partial_hashkey, Cachetools.hashkey.
    destruct kw1 as [|x1 kw1], kw2 as [|x2 kw2].
    - reflexivity.
    - by apply Permutation_nil_cons in Hp.
    - symmetry in Hp. by apply Permutation_nil_cons in Hp.
    - by rewrite (sorted_perm _ _ Hnd Hp). }
  split; [exact E|]. intros now c. by rewrite E.
Qed.

Lemma hashkey_keyword_order_independent_witness :
  Cachetools.partial_hashkey "find" [VStr "iowa"]
    [("placetype", VStr "county"); ("geom", VStr "low")] =
  Cachetools.partial_hashkey "find" [VStr "iowa"]
    [("geom", VStr "low"); ("placetype", VStr "county")].
Proof.
  apply (hashkey_keyword_order_independent "find" [VStr "iowa"]
           [("placetype", VStr "county"); ("geom", VStr "low")]
           [("geom", VStr "low"); ("placetype", VStr "county")]).
  - compute_done.
  - apply perm_swap.
Defined.

(** ** The cache wrapper *)
Section cachedmethod.
Import Cachetools Call.
Context (keyf : list pyval → kwargs_t → key).
Context (method : list pyval → kwargs_t → M JSON).
Context (args : list pyval) (kwargs : kwargs_t).
Context (Hwrap : wrapper_accepts kwargs = true).

(** A live entry is returned and the method is not called. *)
Lemma cachedmethod_hit st c v :
  self st !! "cache" = Some (ACache c) →
  (getitem (now (world st)) (keyf args kwargs) c).1 = Some v →
  cachedmethod "cache" keyf method args kwargs st =
  (Ok v, {| world := world st; cls := cls st;
            self := <["cache" :=
                        ACache (getitem (now (world st)) (keyf args kwargs) c).2]>
                      (self st) |}).
Proof.
  intros Hc Hhit. unfold cachedmethod. rewrite Hwrap. cbn [negb].
  unfold bind, getattr, get_world, setattr, ret.
  rewrite Hc. cbn [world cls self]. rewrite Hhit. reflexivity.
Qed.

(** On a miss the method is called once; what it returns is stored under
    the key and returned. *)
Lemma cachedmethod_miss st c v st' c' :
  self st !! "cache" = Some (ACache c) →
  (getitem (now (world st)) (keyf args kwargs) c).1 = None →
  method args kwargs
    {| world := world st; cls := cls st;
       self := <["cache" :=
                   ACache (getitem (now (world st)) (keyf args kwargs) c).2]>
                 (self st) |} = (Ok v, st') →
  self st' !! "cache" = Some (ACache c') →
  (setitem (now (world st')) (keyf args kwargs) v c').1 ≠ CacheEmpty →
  cachedmethod "cache" keyf method args kwargs st =
  (Ok v, {| world := world st'; cls := cls st';
            self := <["cache" :=
                        ACache (setitem (now (world st')) (keyf args kwargs) v c').2]>
                      (self st') |}).
Proof.
  intros Hc Hmiss Hm Hc' Hset.
  unfold cachedmethod. rewrite Hwrap. cbn [negb].
  unfold bind at 1, getattr. rewrite Hc.
  unfold bind at 1, get_world. cbn [world cls self].
  unfold bind at 1, setattr. cbn [world cls self]. rewrite Hmiss.
  unfold bind at 1. rewrite Hm.
  unfold bind at 1, get_world. unfold bind at 1, getattr. rewrite Hc'.
  destruct (setitem _ _ _ _) as [[] c3]; cbn [fst snd] in *;
    [reflexivity|reflexivity|contradiction].
Qed.
End cachedmethod.

(** The store behind the wrapper does what a shared, bounded TTL cache does:
    an entry is found again until its time to live is over, and in a cache of
    one place an entry stored for [shape] pushes out the entry of [find]. *)
Lemma TTLCache_store_examples :
  let kf := Cachetools.partial_hashkey "find" [VStr "iowa"] [] in
  let ks := Cachetools.partial_hashkey "shape" [VStr "iowa"] [] in
  let c1 := (Cachetools.setitem 1000 kf (Decoded "[1]") (Cachetools.empty 1 600)).2 in
  let c2 := (Cachetools.setitem 1200 ks (Decoded "[2]") c1).2 in
  (Cachetools.getitem 1600 kf c1).1 = Some (Decoded "[1]") ∧
  (Cachetools.getitem 1601 kf c1).1 = None ∧
  (Cachetools.getitem 1300 kf c2).1 = None ∧
  (Cachetools.getitem 1300 ks c2).1 = Some (Decoded "[2]").
Proof. repeat split. Qed.

(** ** Cached operations on the instance as it is *)

(** C4 at [p = Places(); p.find('morocco'); p.find('morocco')]: both calls
    raise [AttributeError] at [self.url]; no request reaches the transport
    (the claim has it reached exactly once) and nothing is stored.  A call
    that differs in a keyword argument fares the same. *)
Theorem find_twice_never_reaches_transport :
  let st0 := Places.new VNone VNone 10 600 Samples.world0 in
  let c1 := Places.find [VStr "morocco"] [] st0 in
  let c2 := Places.find [VStr "morocco"] [] c1.2 in
  let c3 := Places.find [VStr "morocco"] [("placetype", VStr "country")] c2.2 in
  c1.1 = Raise (AttributeError "url") ∧
  c2.1 = Raise (AttributeError "url") ∧
  c3.1 = Raise (AttributeError "url") ∧
  http_log (world c3.2) = [] ∧
  self c3.2 !! "cache" = Some (ACache (Cachetools.empty 10 600)).
Proof. vm_compute. repeat split. Qed.

(** C10 at [p = Places(maxsize=1); p.find('iowa'); p.shape('iowa')]: the
    two operations look in the one cache [p.cache], but both raise
    [AttributeError] at [self.url] before anything is stored, so the cache
    stays empty and no entry of [find] is there for [shape] to evict. *)
Theorem shared_cache_never_filled :
  let st0 := Places.new VNone VNone 1 600 Samples.world0 in
  let c1 := Places.find [VStr "iowa"] [] st0 in
  let c2 := Places.shape [VStr "iowa"] [] c1.2 in
  self st0 !! "cache" = Some (ACache (Cachetools.empty 1 600)) ∧
  c1.1 = Raise (AttributeError "url") ∧
  self c1.2 !! "cache" = Some (ACache (Cachetools.empty 1 600)) ∧
  c2.1 = Raise (AttributeError "url") ∧
  self c2.2 !! "cache" = Some (ACache (Cachetools.empty 1 600)).
Proof. vm_compute. repeat split. Qed.

(** On every [Places] instance the cache is as empty as [__init__] left it:
    no endpoint call gets far enough to store a value. *)
Lemma reachable_cache_empty st :
  reachable st → cls st = PlacesCls →
  ∃ m t, self st !! "cache" = Some (ACache (Cachetools.empty m t)).
Proof. intros Hreach. apply inv_cache. by apply reachable_inv. Qed.

(** * Further properties of the code *)

(** ** Requests *)

(** [request] hands exactly one request to its parent class, whatever
    comes back: to [base_url + url], with the caller's method and
    parameters, and with the caller's timeout if there is one, else the
    session's.  The instance, the shared token and the allocator of object
    identities are left alone. *)
Theorem request_sends_one_request
    (s : Session) (base method url : string) (kw : ReqKwargs) (st : State) :
  s_base_url s = VStr base →
  http_log (world (WrappedSession.request s method url kw st).2) =
    http_log (world st) ++ [sent_request s base method url kw] ∧
  self (WrappedSession.request s method url kw st).2 = self st ∧
  auth_token (world (WrappedSession.request s method url kw st).2) =
    auth_token (world st) ∧
  next_id (world (WrappedSession.request s method url kw st).2) = next_id (world st).
Proof.
  intros Hbase.
  split.
  { rewrite (request_logs_one s base Hbase method url kw st).
    unfold sent_request, WrappedSession.with_timeout.
    destruct (s_timeout s) as [ts|] eqn:Es, (kw_timeout kw) as [tk|] eqn:Ek;
      cbn [kw_params kw_timeout]; rewrite ?Ek; reflexivity. }
  destruct (request_state s method url kw st) as (l & log & E & _).
  rewrite E. by repeat split.
Qed.

Lemma request_sends_one_request_witness :
  http_log (world (WrappedSession.request Samples.session0 "GET" "/placetypes"
                     Samples.no_kwargs (Samples.answering 500 "boom")).2) =
  [{| rq_method := "GET"; rq_url := "https://example.test/placetypes";
      rq_params := None; rq_timeout := Some (9500, 30000) |}].
Proof.
  apply (request_sends_one_request Samples.session0 "https://example.test" "GET"
           "/placetypes" Samples.no_kwargs (Samples.answering 500 "boom")).
  reflexivity.
Defined.

(** On a session whose [base_url] is [None] the concatenation
    [self.base_url + url] raises [TypeError]: nothing is sent and the state
    is untouched. *)
Theorem request_without_base_url
    (s : Session) (method url : string) (kw : ReqKwargs) (st : State) :
  s_base_url s = VNone →
  ∃ msg, WrappedSession.request s method url kw st = (Raise (TypeError msg), st).
Proof.
  intros Hbase. unfold WrappedSession.request. rewrite Hbase.
  eexists. reflexivity.
Qed.

Lemma request_without_base_url_witness :
  ∃ msg,
    WrappedSession.request
      {| s_id := 0; s_base_url := VNone; s_timeout := None; s_adapters := ∅;
         s_headers := ∅; s_verify := VerifyOff |}
      "GET" "/placetypes" Samples.no_kwargs (Samples.answering 200 "[]") =
    (Raise (TypeError msg), Samples.answering 200 "[]").
Proof.
  apply (request_without_base_url
           {| s_id := 0; s_base_url := VNone; s_timeout := None; s_adapters := ∅;
              s_headers := ∅; s_verify := VerifyOff |}
           "GET" "/placetypes" Samples.no_kwargs (Samples.answering 200 "[]")).
  reflexivity.
Defined.

(** ** Calls that do not bind *)

Lemma bind_call_raises_TypeError sg args kw x :
  Call.bind_call sg args kw = Raise x → ∃ msg, x = TypeError msg.
Proof.
  unfold Call.bind_call.
  destruct (Call.bind_positional _ _) as [[vs rest]|];
    [|intros E; simplify_eq; by eexists].
  cbv zeta. destruct (_ || _); [intros E; simplify_eq; by eexists|].
  destruct (Call.bind_keywords rest kw) as [ws|];
    [|intros E; simplify_eq; by eexists].
  destruct (filter _ kw), (Call.sig_varkw sg); intros E; simplify_eq; by eexists.
Qed.

Lemma unbound_cached_call name sg
    (body : list pyval * Cachetools.kwargs_t → M JSON) args kwargs st x :
  inv st → cls st = PlacesCls →
  Call.bind_call sg args kwargs = Raise x →
  ∃ msg,
    Call.cachedmethod "cache" (Cachetools.partial_hashkey name)
      (λ a kw, do b <- lift (Call.bind_call sg a kw); body b) args kwargs st =
    (Raise (TypeError msg), st).
Proof.
  intros Hinv Hcls Eb.
  destruct (Call.wrapper_accepts kwargs) eqn:Hw.
  - destruct (bind_call_raises_TypeError _ _ _ _ Eb) as [msg ->]. exists msg.
    apply cachedmethod_raise; [done..|].
    unfold bind at 1, lift. rewrite Eb. reflexivity.
  - unfold Call.cachedmethod. rewrite Hw. eexists. reflexivity.
Qed.

Lemma unbound_call_outcome (st : State) (e : Places.endpoint) :
  inv st →
  cls st = PlacesCls →
  binds e = false →
  ∃ msg, Places.call e st = (Raise (TypeError msg), st).
Proof.
  intros Hinv Hcls Hb.
  destruct e; cbn [binds] in Hb; try discriminate Hb; cbn [Places.call].
  - destruct (Call.bind_call Places.find_sig args kwargs) as [r|x] eqn:Eb;
      [discriminate Hb|].
    by apply (unbound_cached_call "find" Places.find_sig
                (λ b, match b with
                      | ([path], extra) => Places.find_body path extra
                      | _ => raise (TypeError "find")
                      end) _ _ _ x).
  - destruct (Call.bind_call Places.shape_sig args kwargs) as [r|x] eqn:Eb;
      [discriminate Hb|].
    by apply (unbound_cached_call "shape" Places.shape_sig
                (λ b, match b with
                      | ([slug; output; geom], _) => Places.shape_body slug output geom
                      | _ => raise (TypeError "shape")
                      end) _ _ _ x).
  - destruct (Call.bind_call Places.prefix_sig args kwargs) as [r|x] eqn:Eb;
      [discriminate Hb|].
    by apply (unbound_cached_call "prefix" Places.prefix_sig
                (λ b, match b with
                      | ([slug; output; placetype; geom], _) =>
                          Places.prefix_body slug output placetype geom
                      | _ => raise (TypeError "prefix")
                      end) _ _ _ x).
Qed.


(** A call of [find], [shape] or [prefix] whose arguments do not fit the
    signature (too many, a missing one, an unknown or repeated keyword)
    raises [TypeError] and leaves the instance and the world as they were:
    no session is built and nothing is sent. *)
Theorem unbound_call_raises_TypeError (st : State) (e : Places.endpoint) :
  reachable st →
  cls st = PlacesCls →
  binds e = false →
  ∃ msg, Places.call e st = (Raise (TypeError msg), st).
Proof. intros Hreach. apply unbound_call_outcome. by apply reachable_inv. Qed.

Lemma unbound_call_raises_TypeError_witness :
  ∃ msg,
    Places.call (Places.Shape [VStr "iowa"] [("format", VStr "geojson")])
      (Places.new VNone VNone 10 600 Samples.world0) =
    (Raise (TypeError msg), Places.new VNone VNone 10 600 Samples.world0).
Proof.
  apply (unbound_call_raises_TypeError
           (Places.new VNone VNone 10 600 Samples.world0)
           (Places.Shape [VStr "iowa"] [("format", VStr "geojson")])
           (reach_Places VNone VNone 10 600 Samples.world0)).
  - reflexivity.
  - vm_compute. reflexivity.
Defined.

(** An endpoint call leaves the state either untouched or as an access to
    the session leaves it. *)
Lemma call_state e st :
  reachable st → cls st = PlacesCls →
  (Places.call e st).2 = st ∨ (Places.call e st).2 = (Service.session st).2.
Proof.
  intros Hreach Hcls. destruct (binds e) eqn:Hb.
  - right. destruct (call_outcome e st (reachable_inv st Hreach) Hcls)
      as (x & st' & E & _ & _ & _ & Hx).
    rewrite E. cbn [snd]. by apply Hx.
  - left. destruct (unbound_call_outcome st e (reachable_inv st Hreach) Hcls Hb)
      as [msg E].
    by rewrite E.
Qed.

(** ** The session held by an instance *)

(** On a stale instance, the state an access to the session leaves. *)
Lemma session_stale_state st :
  inv st → stale st →
  ∃ s w',
    Service.build_session st = (Ok s, {| world := w'; cls := cls st; self := self st |}) ∧
    Service.session st =
      (Ok s, {| world := w'; cls := cls st;
                self := <["session_token" := AVal (auth_token (world st))]>
                          (<["current_session" := ASession s]> (self st)) |}).
Proof.
  intros [Ha [b Hb] [v Hv] Hs Hu Hc] Hst.
  assert (∃ c, self st !! "current_session" = Some c) as [c Hcur].
  { destruct Hs as [?|(s & ? & _)]; eauto. }
  apply (session_rebuild st b v c Ha Hb Hv Hcur).
  destruct Hst as [Hnone|Hne].
  - right. rewrite Hcur in Hnone. by simplify_eq.
  - left. intros ->. by apply Hne.
Qed.

(** The session [build_session] returns matches the instance once it is
    recorded with the token it was built for. *)
Lemma built_session_matches st s st0 :
  inv st →
  Service.build_session st = (Ok s, st0) →
  session_matches
    {| world := world st0; cls := cls st;
       self := <["session_token" := AVal (auth_token (world st))]>
                 (<["current_session" := ASession s]> (self st)) |} s.
Proof.
  intros Hinv E. destruct (inv_base _ Hinv) as [b Hb].
  rewrite (build_session_eq st b Hb (inv_auth _ Hinv)) in E. cbv zeta in E.
  apply pair_equal_spec in E as [Es _]. apply Ok_inj in Es. subst s.
  unfold session_matches. cbn [self cls s_base_url s_timeout s_headers s_adapters s_verify].
  split. { by rewrite !lookup_insert_ne. }
  split; [reflexivity|].
  split.
  { exists (auth_token (world st)). split; [apply lookup_insert_eq|].
    rewrite !lookup_insert_ne by done. apply lookup_insert_eq. }
  split. { rewrite lookup_insert_ne by done. apply lookup_insert_eq. }
  split. { rewrite !lookup_insert_ne by done. apply lookup_singleton_eq. }
  split. { destruct (cert_readable (world st)); discriminate. }
  intros k p H.
  apply lookup_insert_Some in H as [[Hk _]|[_ H]]; [by symmetry|].
  apply lookup_insert_Some in H as [[_ H]|[_ H]]; [discriminate H|].
  apply lookup_singleton_Some in H as [_ H]. discriminate H.
Qed.

Lemma session_step_matches st :
  inv st →
  (∀ s, self st !! "current_session" = Some (ASession s) → session_matches st s) →
  ∀ s, self (Service.session st).2 !! "current_session" = Some (ASession s) →
       session_matches (Service.session st).2 s.
Proof.
  intros Hinv IH s.
  destruct (session_outcome st Hinv)
    as (s1 & st' & E & _ & _ & _ & _ & _ & _ & _ & _ & _ & Hcase).
  destruct Hcase as [(Hst & _)|(_ & Heq & _)].
  - destruct (session_stale_state st Hinv Hst) as (s2 & w' & Hbuild & Hsess).
    rewrite Hsess. cbn [snd self]. rewrite lookup_insert_ne by done.
    rewrite lookup_insert_eq. intros Hs. simplify_eq.
    apply (built_session_matches st s _ Hinv Hbuild).
  - rewrite E. cbn [snd]. rewrite Heq. apply IH.
Qed.

Lemma reachable_session_matches st :
  reachable st →
  ∀ s, self st !! "current_session" = Some (ASession s) → session_matches st s.
Proof.
  induction 1 as [url token w|url token maxsize ttl w|st Hr IH|t st Hr IH|t st Hr IH
                  |e st Hr IH Hcls].
  - intros s. unfold Service.new. rewrite Service_init_eq. cbn [snd self].
    rewrite lookup_insert_ne by done. rewrite lookup_insert_eq. discriminate.
  - intros s. destruct (Places_new_eq url token maxsize ttl w) as (u & w' & -> & _).
    cbn [self]. rewrite !lookup_insert_ne by done. rewrite lookup_insert_eq.
    discriminate.
  - apply session_step_matches; [by apply reachable_inv|exact IH].
  - rewrite (token_setter_eq t st (reachable_inv st Hr)). cbn [snd]. exact IH.
  - exact IH.
  - destruct (call_state e st Hr Hcls) as [->| ->]; [exact IH|].
    apply session_step_matches; [by apply reachable_inv|exact IH].
Qed.

(** ** The backoff factor of a session *)

(** The attempts a request makes on a session are made under the policy
    mounted on [https://], with its backoff factor. *)
Lemma request_attempts_backoff s method url kw st1 :
  (∀ k p, s_adapters s !! k = Some (HTTPAdapter p) → k = "https://") →
  Forall (λ a, ∀ p, at_retry a = Some p → Some (backoff_factor p) = backoff_of s)
    (attempts_between st1 (WrappedSession.request s method url kw st1).2).
Proof.
  intros Honly.
  destruct (request_state s method url kw st1) as (l & log & E & Hl).
  rewrite E. unfold attempts_between. cbn [world wire set_wire].
  rewrite drop_app_length.
  eapply Forall_impl; [exact Hl|]. intros a Ha p' Hp'.
  destruct (Ha p' Hp') as (k & p & Hk & Hbf & _).
  rewrite (Honly k p Hk) in Hk. unfold backoff_of. rewrite Hk.
  by rewrite Hbf.
Qed.

(** C6, as the code has it: every session is built with the retry policy
    whose methods are HEAD, TRACE, GET, POST, PUT, OPTIONS and DELETE and
    whose statuses are 429, 500, 502 and 503; its backoff factor is the one
    value [random.uniform(1, 3)] returns while the session is built, a number
    from 1 to 3 with both ends included.  Later accesses return the same
    session and draw nothing; a request on the session, in whatever state it
    is sent, draws nothing from the generator, and every attempt it makes on
    the wire, the first one and each retry, is made under a [Retry] object
    with that same backoff factor. *)
Theorem backoff_drawn_once_in_closed_range (st : State) :
  reachable st →
  let draw := Random.uniform (Float64.of_Z 1) (Float64.of_Z 3) (rng (world st)) in
  (∃ s st', Service.build_session st = (Ok s, st') ∧
            configured s ∧ backoff_of s = Some draw.1 ∧
            rng (world st') = draw.2) ∧
  (∃ s, (Service.session st).1 = Ok s ∧ configured s ∧
        (stale st → backoff_of s = Some draw.1 ∧
                    rng (world (Service.session st).2) = draw.2) ∧
        (¬ stale st → rng (world (Service.session st).2) = rng (world st)) ∧
        (∀ method url kw,
           let st2 := (WrappedSession.request s method url kw (Service.session st).2).2 in
           rng (world st2) = rng (world (Service.session st).2) ∧
           Service.session st2 = (Ok s, st2)) ∧
        (∀ method url kw st1,
           let st2 := (WrappedSession.request s method url kw st1).2 in
           rng (world st2) = rng (world st1) ∧
           Forall (λ a, ∀ p, at_retry a = Some p →
                             Some (backoff_factor p) = backoff_of s)
                  (attempts_between st1 st2))).
Proof.
  intros Hreach draw. pose proof (reachable_inv st Hreach) as Hinv.
  destruct (inv_base _ Hinv) as [b Hb].
  pose proof (build_session_eq st b Hb (inv_auth _ Hinv)) as Eb. cbv zeta in Eb.
  destruct (build_session_facts st b _ _ Hb (inv_auth _ Hinv) Eb)
    as (_ & _ & Hconf & Hbo & _ & _ & _).
  split.
  { eexists _, _. split; [exact Eb|]. split; [exact Hconf|]. split; [exact Hbo|].
    reflexivity. }
  destruct (session_outcome st Hinv)
    as (s & st' & E & Hinv' & Hcur & Htok & Hauth & _ & _ & _ & _ & Hconf' & Hcase).
  pose proof (reachable_session_matches _ (reach_session st Hreach) s) as Hm.
  rewrite E in Hm. cbn [snd] in Hm.
  destruct (Hm Hcur) as (_ & _ & _ & _ & _ & _ & Honly).
  rewrite E. cbn [fst snd].
  exists s. split; [reflexivity|]. split; [exact Hconf'|].
  split; [|split; [|split]].
  - intros Hst. destruct Hcase as [(_ & _ & _ & Hbo' & Hbuild)|(Hn & _)];
      [|contradiction].
    split; [exact Hbo'|].
    destruct (build_session_facts st b s _ Hb (inv_auth _ Hinv) Hbuild)
      as (_ & _ & _ & _ & _ & _ & Hw).
    apply (f_equal world) in Hw. cbn [world] in Hw. rewrite Hw. reflexivity.
  - intros Hn. destruct Hcase as [(Hst & _)|(_ & -> & _)]; [contradiction|reflexivity].
  - intros method url kw.
    destruct (request_frame s method url kw st') as (Hself & Hrng & Htk & _).
    split; [exact Hrng|].
    apply session_reuse.
    + rewrite Hself. apply (inv_auth _ Hinv').
    + rewrite Hself, Htk, Htok, Hauth. reflexivity.
    + rewrite Hself. exact Hcur.
  - intros method url kw st1.
    destruct (request_frame s method url kw st1) as (_ & Hrng & _).
    split; [exact Hrng|]. by apply request_attempts_backoff.
Qed.

Lemma backoff_drawn_once_in_closed_range_witness :
  let st := Service.new (VStr "https://example.test") VNone
              (Samples.world_answering 429 "slow down") in
  ∃ s, (Service.session st).1 = Ok s ∧
       configured s ∧
       let st1 := (Service.session st).2 in
       let st2 := (WrappedSession.request s "GET" "/placetypes" Samples.no_kwargs st1).2 in
       (λ a, total <$> at_retry a) <$> attempts_between st1 st2 =
         [Some 5; Some 4; Some 3; Some 2; Some 1; Some 0] ∧
       Forall (λ a, ∀ p, at_retry a = Some p → Some (backoff_factor p) = backoff_of s)
              (attempts_between st1 st2).
Proof.
  intros st.
  destruct (backoff_drawn_once_in_closed_range st (reach_Service _ _ _))
    as (_ & s & E & Hconf & _ & _ & _ & Hatt).
  exists s. split; [exact E|]. split; [exact Hconf|].
  intros st1 st2. split; [|apply Hatt].
  subst st1 st2.
  set (s0 := match (Service.session st).1 with
             | Ok s0 => s0
             | Raise _ => Samples.session0
             end).
  assert ((Service.session st).1 = Ok s0) as E0 by (vm_compute; reflexivity).
  rewrite E0 in E. apply Ok_inj in E. rewrite <- E. vm_compute. reflexivity.
Defined.

Lemma session_frame_attr st name :
  inv st → name ≠ "current_session" → name ≠ "session_token" →
  self (Service.session st).2 !! name = self st !! name.
Proof.
  intros Hinv H1 H2.
  destruct (session_outcome st Hinv)
    as (s1 & st' & E & _ & _ & _ & _ & _ & _ & _ & _ & _ & Hcase).
  destruct Hcase as [(Hst & _)|(_ & Heq & _)].
  - destruct (session_stale_state st Hinv Hst) as (s2 & w' & _ & Hsess).
    rewrite Hsess. cbn [snd self]. by rewrite !lookup_insert_ne.
  - rewrite E. cbn [snd]. by rewrite Heq.
Qed.

(** Reading [self.session] is local: it sends nothing, leaves the shared
    token and the clock alone, and writes no attribute of the instance other
    than [current_session] and [session_token]. *)
Theorem session_access_is_local (st : State) (name : string) :
  reachable st →
  name ≠ "current_session" →
  name ≠ "session_token" →
  self (Service.session st).2 !! name = self st !! name ∧
  http_log (world (Service.session st).2) = http_log (world st) ∧
  auth_token (world (Service.session st).2) = auth_token (world st) ∧
  now (world (Service.session st).2) = now (world st).
Proof.
  intros Hreach H1 H2. pose proof (reachable_inv st Hreach) as Hinv.
  split; [by apply session_frame_attr|].
  destruct (session_outcome st Hinv)
    as (s & st' & E & _ & _ & _ & Htok & Hlog & Hnow & _).
  rewrite E. cbn [snd]. by repeat split.
Qed.

Lemma session_access_is_local_witness :
  self (Service.session (Places.new VNone VNone 10 600 Samples.world0)).2 !! "base_url" =
  self (Places.new VNone VNone 10 600 Samples.world0) !! "base_url".
Proof.
  apply (session_access_is_local (Places.new VNone VNone 10 600 Samples.world0)
           "base_url" (reach_Places VNone VNone 10 600 Samples.world0)).
  - discriminate.
  - discriminate.
Defined.

(** What the session returned by [self.session] looks like, on any
    instance. *)
Lemma session_returned_matches st :
  reachable st →
  ∃ s st', Service.session st = (Ok s, st') ∧
           self st !! "base_url" = Some (AVal (s_base_url s)) ∧
           s_timeout s = Some (TIMEOUT (cls st)) ∧
           s_headers s !! "Authorization" = Some (auth_token (world st)) ∧
           s_headers s !! "Content-Type" = Some (VStr "application/json") ∧
           s_adapters s !! "http://" = Some DefaultAdapter ∧
           s_verify s ≠ VerifyDefault ∧
           http_log (world st') = http_log (world st).
Proof.
  intros Hreach. pose proof (reachable_inv st Hreach) as Hinv.
  destruct (session_outcome st Hinv)
    as (s & st' & E & _ & Hcur & Htok & _ & Hlog & _ & Hcls & _).
  pose proof (reachable_session_matches _ (reach_session st Hreach) s) as Hm.
  pose proof (session_frame_attr st "base_url" Hinv ltac:(discriminate)
                ltac:(discriminate)) as Hbase.
  rewrite E in Hm, Hbase. cbn [snd] in Hm, Hbase.
  destruct (Hm Hcur) as (Hb & Ht & (v & Hv & Hauth) & Hct & Hhttp & Hver & _).
  exists s, st'. split; [exact E|].
  split; [by rewrite <- Hbase|]. split; [by rewrite Ht, Hcls|].
  split. { rewrite Htok in Hv. by simplify_eq. }
  by repeat split.
Qed.

(** The session [self.session] returns always carries the current value of
    the shared token in its [Authorization] header, whatever sessions were
    built and whatever tokens were written before; its [Content-Type] is
    [application/json]. *)
Theorem session_carries_current_token (st : State) :
  reachable st →
  ∃ s, (Service.session st).1 = Ok s ∧
       s_headers s !! "Authorization" = Some (auth_token (world st)) ∧
       s_headers s !! "Content-Type" = Some (VStr "application/json").
Proof.
  intros Hreach.
  destruct (session_returned_matches st Hreach)
    as (s & st' & E & _ & _ & Hauth & Hct & _).
  exists s. rewrite E. by repeat split.
Qed.

Lemma session_carries_current_token_witness :
  let st := (Service.token_setter (VStr "token-b")
               (Service.session (Places.new VNone VNone 10 600 Samples.world0)).2).2 in
  ∃ s, (Service.session st).1 = Ok s ∧
       s_headers s !! "Authorization" = Some (VStr "token-b").
Proof.
  intros st.
  destruct (session_carries_current_token st) as (s & E & Hauth & _).
  - apply reach_token, reach_session, reach_Places.
  - exists s. split; [exact E|]. rewrite Hauth. vm_compute. reflexivity.
Defined.

(** The session is bound to the instance: its [base_url] is the attribute
    [base_url] and its timeout the [TIMEOUT] of the class, (9.5, 30) for a
    [Service] and (9.5, 120) for a [Places]. *)
Theorem session_bound_to_instance (st : State) :
  reachable st →
  ∃ s, (Service.session st).1 = Ok s ∧
       self st !! "base_url" = Some (AVal (s_base_url s)) ∧
       s_timeout s = Some (match cls st with
                           | ServiceCls => (9500, 30000)
                           | PlacesCls => (9500, 120000)
                           end).
Proof.
  intros Hreach.
  destruct (session_returned_matches st Hreach) as (s & st' & E & Hb & Ht & _).
  exists s. rewrite E. split; [reflexivity|]. split; [exact Hb|].
  rewrite Ht. by destruct (cls st).
Qed.

Lemma session_bound_to_instance_witness :
  ∃ s, (Service.session (Places.new (VStr "https://example.test") VNone 10 600
                           Samples.world0)).1 = Ok s ∧
       s_base_url s = VStr "https://example.test" ∧
       s_timeout s = Some (9500, 120000).
Proof.
  destruct (session_bound_to_instance
              (Places.new (VStr "https://example.test") VNone 10 600 Samples.world0)
              (reach_Places _ _ _ _ _)) as (s & E & Hb & Ht).
  exists s. split; [exact E|]. split; [|exact Ht].
  assert (self (Places.new (VStr "https://example.test") VNone 10 600 Samples.world0)
            !! "base_url" = Some (AVal (VStr "https://example.test"))) as H0
    by (vm_compute; reflexivity).
  rewrite H0 in Hb. clear -Hb. congruence.
Defined.

(** The retry policy covers [https://] only: on the session returned the
    adapter of [http://] is still the default one of [requests], with no
    retries, and [verify] is no longer at its default. *)
Theorem session_retries_https_only (st : State) :
  reachable st →
  ∃ s, (Service.session st).1 = Ok s ∧
       configured s ∧
       s_adapters s !! "http://" = Some DefaultAdapter ∧
       s_verify s ≠ VerifyDefault.
Proof.
  intros Hreach.
  destruct (session_returned_matches st Hreach)
    as (s & st' & E & _ & _ & _ & _ & Hhttp & Hver & _).
  destruct (session_outcome st (reachable_inv st Hreach))
    as (s1 & st1 & E1 & _ & _ & _ & _ & _ & _ & _ & _ & Hconf & _).
  rewrite E in E1. apply pair_equal_spec in E1 as [Es _]. apply Ok_inj in Es.
  subst s1. exists s. rewrite E. by repeat split.
Qed.

Lemma session_retries_https_only_witness :
  ∃ s, (Service.session (Service.new (VStr "http://example.test") VNone
                           Samples.world0)).1 = Ok s ∧
       s_adapters s !! "http://" = Some DefaultAdapter.
Proof.
  destruct (session_retries_https_only
              (Service.new (VStr "http://example.test") VNone Samples.world0)
              (reach_Service _ _ _)) as (s & E & _ & Hhttp & _).
  exists s. by split.
Defined.

(** ** A request through the session of an instance *)

(** [self.session.get(path, ...)] on an instance whose [base_url] is a
    string hands one GET for [base_url + path] to [requests]; without a
    timeout from the caller the request carries the [TIMEOUT] of the
    class. *)
Theorem session_get_goes_to_base_url
    (st : State) (base path : string) (kw : ReqKwargs) :
  reachable st →
  self st !! "base_url" = Some (AVal (VStr base)) →
  ∃ s st1,
    Service.session st = (Ok s, st1) ∧
    http_log (world (WrappedSession.get s path kw st1).2) =
      http_log (world st) ++
        [{| rq_method := "GET";
            rq_url := base +:+ path;
            rq_params := kw_params kw;
            rq_timeout := match kw_timeout kw with
                          | Some t => Some t
                          | None => Some (TIMEOUT (cls st))
                          end |}].
Proof.
  intros Hreach Hbase.
  destruct (session_returned_matches st Hreach)
    as (s & st1 & E & Hb & Ht & _ & _ & _ & _ & Hlog).
  exists s, st1. split; [exact E|].
  assert (s_base_url s = VStr base) as Hs by (rewrite Hb in Hbase; congruence).
  unfold WrappedSession.get.
  rewrite (request_logs_one s base Hs "GET" path kw st1), Hlog.
  unfold WrappedSession.with_timeout. rewrite Ht.
  destruct (kw_timeout kw) as [t|] eqn:Ek; cbn [kw_params kw_timeout];
    rewrite ?Ek; reflexivity.
Qed.

Lemma session_get_goes_to_base_url_witness :
  let st := Service.new (VStr "https://example.test") VNone Samples.world0 in
  ∃ s st1,
    Service.session st = (Ok s, st1) ∧
    http_log (world (WrappedSession.get s "/placetypes" Samples.no_kwargs st1).2) =
      [{| rq_method := "GET"; rq_url := "https://example.test/placetypes";
          rq_params := None; rq_timeout := Some (9500, 30000) |}].
Proof.
  intros st.
  apply (session_get_goes_to_base_url st "https://example.test" "/placetypes"
           Samples.no_kwargs (reach_Service _ _ _)).
  vm_compute. reflexivity.
Defined.

(** ** Endpoint calls and the session *)



(** ** Construction *)

Lemma Places_new_state url token maxsize ttl w :
  Places.new url token maxsize ttl w =
  {| world := if truthy token then set_auth_token token w else w;
     cls := PlacesCls;
     self := <["cache" := ACache (Cachetools.empty maxsize ttl)]>
               (<["session_token" := AVal VNone]>
                  (<["current_session" := AVal VNone]>
                     (<["base_url" :=
                          AVal (match url with
                                | VNone =>
                                    VStr (default
                                            "https://platform-services.descarteslabs.com/waldo/dev"
                                            (environ w !! "DESCARTESLABS_PLACES_URL"))
                                | VStr _ => url
                                end)]>
                        (<["auth" := AAuth]> ∅)))) |}.
Proof.
  unfold Places.new, Places.__init__, bind at 1, get_world. cbn [world cls self].
  unfold bind at 1. rewrite Service_init_eq. cbn [world cls self].
  unfold setattr. cbn [snd world cls self]. destruct url; reflexivity.
Qed.

(** Constructing a [Places] is lazy and resolves the URL: an explicit [url]
    (even the empty string) is kept, [None] falls back to the environment
    variable [DESCARTESLABS_PLACES_URL] and then to the built-in address;
    the cache starts empty with the given size and time to live; no session
    is built, nothing is sent and no random number is drawn; the first
    session is bound to the resolved URL and carries the token in force. *)
Theorem Places_construction (url token : pyval) (maxsize ttl : Z) (w : World) :
  let st := Places.new url token maxsize ttl w in
  let resolved :=
    match url with
    | VNone => VStr (default "https://platform-services.descarteslabs.com/waldo/dev"
                             (environ w !! "DESCARTESLABS_PLACES_URL"))
    | VStr _ => url
    end in
  self st !! "base_url" = Some (AVal resolved) ∧
  self st !! "cache" = Some (ACache (Cachetools.empty maxsize ttl)) ∧
  self st !! "current_session" = Some (AVal VNone) ∧
  next_id (world st) = next_id w ∧
  http_log (world st) = http_log w ∧
  rng (world st) = rng w ∧
  ∃ s, (Service.session st).1 = Ok s ∧
       s_base_url s = resolved ∧
       s_headers s !! "Authorization" =
         Some (if truthy token then token else auth_token w).
Proof.
  intros st resolved.
  assert (self st !! "base_url" = Some (AVal resolved)) as Hbase.
  { subst st. rewrite Places_new_state. cbn [self].
    rewrite !lookup_insert_ne by done. apply lookup_insert_eq. }
  assert (world st = if truthy token then set_auth_token token w else w) as Hw.
  { subst st. rewrite Places_new_state. reflexivity. }
  split; [exact Hbase|].
  split. { subst st. rewrite Places_new_state. apply lookup_insert_eq. }
  split. { subst st. rewrite Places_new_state. cbn [self].
           rewrite !lookup_insert_ne by done. apply lookup_insert_eq. }
  split. { rewrite Hw. by destruct (truthy token). }
  split. { rewrite Hw. by destruct (truthy token). }
  split. { rewrite Hw. by destruct (truthy token). }
  destruct (session_returned_matches st (reach_Places url token maxsize ttl w))
    as (s & st' & E & Hb & _ & Hauth & _).
  exists s. rewrite E. split; [reflexivity|].
  split. { rewrite Hbase in Hb. congruence. }
  rewrite Hauth, Hw. by destruct (truthy token).
Qed.

(** The token is shared: constructing an instance with a token that is
    neither [None] nor empty changes the world exactly as the [token] setter
    of any existing instance does, so an existing instance whose session was
    built for another token is stale from then on; constructing one with
    [None] or the empty string leaves the shared token alone. *)
Theorem construction_overwrites_shared_token
    (st : State) (url token : pyval) (maxsize ttl : Z) :
  reachable st →
  let w' := world (Places.new url token maxsize ttl (world st)) in
  let st' := {| world := w'; cls := cls st; self := self st |} in
  (truthy token = true →
     st' = (Service.token_setter token st).2 ∧
     (self st !! "session_token" ≠ Some (AVal token) → stale st')) ∧
  (truthy token = false → w' = world st).
Proof.
  intros Hreach w' st'. subst st' w'. rewrite Places_new_state. cbn [world].
  split.
  - intros Ht. rewrite Ht.
    rewrite (token_setter_eq token st (reachable_inv st Hreach)). cbn [snd].
    split; [reflexivity|]. intros Hne. right. exact Hne.
  - intros Ht. rewrite Ht. reflexivity.
Qed.

Lemma construction_overwrites_shared_token_witness :
  let st := (Service.session (Places.new VNone VNone 10 600 Samples.world0)).2 in
  stale {| world := world (Places.new VNone (VStr "token-b") 5 60 (world st));
           cls := cls st; self := self st |}.
Proof.
  intros st.
  refine (proj2 (proj1 (construction_overwrites_shared_token st VNone (VStr "token-b")
                          5 60 _) eq_refl) _).
  - apply reach_session, reach_Places.
  - vm_compute. discriminate.
Defined.

(** ** Headers of a built session *)

(** [build_session] sets three headers, [Authorization] to the current
    token, [Content-Type] to [application/json] and [User-Agent] to
    [dl-python/] followed by the package version, and keeps every other
    default header of [requests]; it does not write to the instance and
    sends nothing. *)
Theorem build_session_headers (st : State) :
  reachable st →
  ∃ s st',
    Service.build_session st = (Ok s, st') ∧
    s_headers s !! "Authorization" = Some (auth_token (world st)) ∧
    s_headers s !! "Content-Type" = Some (VStr "application/json") ∧
    s_headers s !! "User-Agent" = Some (VStr ("dl-python/" +:+ version (world st))) ∧
    (∀ h, h ∉ ["Authorization"; "Content-Type"; "User-Agent"] →
          s_headers s !! h = default_headers (world st) !! h) ∧
    self st' = self st ∧
    http_log (world st') = http_log (world st) ∧
    auth_token (world st') = auth_token (world st).
Proof.
  intros Hreach. pose proof (reachable_inv st Hreach) as Hinv.
  destruct (inv_base _ Hinv) as [b Hb].
  pose proof (build_session_eq st b Hb (inv_auth _ Hinv)) as E. cbv zeta in E.
  eexists _, _. split; [exact E|]. cbn [s_headers].
  split. { rewrite !lookup_insert_ne by done. apply lookup_insert_eq. }
  split. { rewrite lookup_insert_ne by done. apply lookup_insert_eq. }
  split. { apply lookup_insert_eq. }
  split.
  { intros h Hh.
    rewrite lookup_insert_ne by (intros <-; apply Hh; by do 2 right; left).
    rewrite lookup_insert_ne by (intros <-; apply Hh; by right; left).
    rewrite lookup_insert_ne by (intros <-; apply Hh; by left).
    reflexivity. }
  split; [reflexivity|]. split; reflexivity.
Qed.

Lemma build_session_headers_witness :
  ∃ s st',
    Service.build_session (Service.new (VStr "https://example.test") VNone
                             Samples.world0) = (Ok s, st') ∧
    s_headers s !! "User-Agent" = Some (VStr "dl-python/0.4.6").
Proof.
  destruct (build_session_headers
              (Service.new (VStr "https://example.test") VNone Samples.world0)
              (reach_Service _ _ _)) as (s & st' & E & _ & _ & Hua & _).
  exists s, st'. split; [exact E|]. rewrite Hua. vm_compute. reflexivity.
Defined.

(** ** Cache keys tell calls apart *)
Section key_injective.
Import Cachetools.

Global Instance KVal_inj : Inj (=) (=) KVal.
Proof. intros x y E. by injection E. Qed.

Lemma mark_not_in_values (l : list pyval) : KMark ∉ KVal <$> l.
Proof.
  intros H. apply list_elem_of_fmap in H as (v & E & _). discriminate E.
Qed.

(** A key splits at its first marker in one way only. *)
Lemma app_mark_inj (l1 l2 r1 r2 : key) :
  KMark ∉ l1 → KMark ∉ l2 →
  l1 ++ KMark :: r1 = l2 ++ KMark :: r2 → l1 = l2 ∧ r1 = r2.
Proof.
  revert l2. induction l1 as [|x l1 IH]; intros [|y l2] H1 H2 E; simpl in E.
  - by simplify_eq.
  - simplify_eq. exfalso. apply H2. by left.
  - simplify_eq. exfalso. apply H1. by left.
  - simplify_eq. apply not_elem_of_cons in H1 as [_ H1].
    apply not_elem_of_cons in H2 as [_ H2].
    destruct (IH l2 H1 H2) as [-> ->]; [done|]. by split.
Qed.

Lemma flat_items_inj (i1 i2 : kwargs_t) :
  flat_map (λ kv, [KVal (VStr kv.1); KVal kv.2]) i1 =
  flat_map (λ kv, [KVal (VStr kv.1); KVal kv.2]) i2 → i1 = i2.
Proof.
  revert i2. induction i1 as [|[k v] i1 IH]; intros [|[k' v'] i2] E; simpl in E;
    simplify_eq; [done|]. f_equal. by apply IH.
Qed.
End key_injective.

(** Two calls get the same cache key only if they name the same operation,
    pass the same positional arguments in the same order, and pass the same
    keyword items: a different operation, a different value of a keyword
    argument, or the same value passed positionally in one call and by
    keyword in the other, all give different keys. *)
Theorem hashkey_separates_calls
    (name name' : string) (args args' : list pyval) (kw kw' : Cachetools.kwargs_t) :
  Cachetools.partial_hashkey name args kw = Cachetools.partial_hashkey name' args' kw' →
  name = name' ∧ args = args' ∧ kw ≡ₚ kw'.
Proof.
  unfold Cachetools.partial_hashkey, Cachetools.hashkey.
  destruct kw as [|x kw], kw' as [|x' kw']; intros E.
  - apply (inj (fmap Cachetools.KVal)) in E. by simplify_eq.
  - exfalso. apply (mark_not_in_values (VStr name :: args)). rewrite E.
    apply elem_of_app. right. by left.
  - exfalso. apply (mark_not_in_values (VStr name' :: args')). rewrite <- E.
    apply elem_of_app. right. by left.
  - unfold Cachetools.flatten in E.
    apply app_mark_inj in E as [Ea Ef]; [|apply mark_not_in_values..].
    apply (inj (fmap Cachetools.KVal)) in Ea. apply flat_items_inj in Ef.
    simplify_eq. split; [done|]. split; [done|].
    unfold Cachetools.sorted in Ef.
    rewrite <- (merge_sort_Permutation Cachetools.item_le (x :: kw)).
    rewrite Ef. apply merge_sort_Permutation.
Qed.

Lemma hashkey_separates_calls_witness :
  [("placetype", VStr "county"); ("geom", VStr "low")] ≡ₚ
  [("geom", VStr "low"); ("placetype", VStr "county")].
Proof.
  refine (proj2 (proj2 (hashkey_separates_calls "find" "find" [VStr "iowa"]
                          [VStr "iowa"]
                          [("placetype", VStr "county"); ("geom", VStr "low")]
                          [("geom", VStr "low"); ("placetype", VStr "county")] _))).
  vm_compute. reflexivity.
Defined.

(** ** What can be raised *)
Section raises.
Context (P : exn → Prop).

Lemma raises_ret {A} (a : A) : raises_only P (ret a).
Proof. intros st e E. discriminate E. Qed.

Lemma raises_raise {A} e : P e → raises_only P (@raise A e).
Proof. intros He st e' E. cbn in E. by simplify_eq. Qed.

Lemma raises_lift {A} (r : result A) :
  (∀ e, r = Raise e → P e) → raises_only P (lift r).
Proof. intros Hr st e E. by apply Hr. Qed.

Lemma raises_getattr name : P (AttributeError name) → raises_only P (getattr name).
Proof.
  intros Hp st e. unfold getattr. destruct (self st !! name); cbn; intros E;
    by simplify_eq.
Qed.

Lemma raises_setattr name a : raises_only P (setattr name a).
Proof. intros st e E. discriminate E. Qed.

Lemma raises_get_world : raises_only P get_world.
Proof. intros st e E. discriminate E. Qed.

Lemma raises_get_class : raises_only P get_class.
Proof. intros st e E. discriminate E. Qed.

Lemma raises_modify_world f : raises_only P (modify_world f).
Proof. intros st e E. discriminate E. Qed.

Lemma raises_bind_post {A B} (Q : A → Prop) (m : M A) (k : A → M B) :
  raises_only P m → returns_only Q m →
  (∀ a, Q a → raises_only P (k a)) → raises_only P (bind m k).
Proof.
  intros Hm Hq Hk st e. unfold bind.
  destruct (m st) as [[a|e'] st'] eqn:E; cbn.
  - apply (Hk a). apply (Hq st). by rewrite E.
  - intros E'. simplify_eq. apply (Hm st). by rewrite E.
Qed.

Lemma raises_bind {A B} (m : M A) (k : A → M B) :
  raises_only P m → (∀ a, raises_only P (k a)) → raises_only P (bind m k).
Proof.
  intros Hm Hk. apply (raises_bind_post (λ _, True)); [done|done|auto].
Qed.
End raises.

Ltac raises_step :=
  first [ apply raises_bind; [|intro]
        | apply raises_ret
        | apply raises_setattr
        | apply raises_get_world
        | apply raises_get_class
        | apply raises_modify_world
        | apply raises_getattr
        | apply raises_raise ].

(** Reading the token, building a session and reading the session raise
    nothing but [AttributeError] and [TypeError], in any state. *)
Lemma token_raises P :
  (∀ n, P (AttributeError n)) → raises_only P Service.token.
Proof.
  intros Ha. unfold Service.token, Auth.token. repeat raises_step; apply Ha.
Qed.

Lemma build_session_raises P :
  (∀ n, P (AttributeError n)) → raises_only P Service.build_session.
Proof.
  intros Ha. unfold Service.build_session.
  apply raises_bind; [apply raises_getattr, Ha|intros base].
  apply raises_bind; [apply raises_get_class|intros c].
  apply raises_bind; [unfold Service.new_WrappedSession; repeat raises_step|intros s].
  apply raises_bind; [unfold Service.draw_backoff; cbv zeta; repeat raises_step|intros bf].
  cbv zeta.
  apply raises_bind; [by apply token_raises|intros tok].
  apply raises_bind; [apply raises_get_world|intros w].
  apply raises_ret.
Qed.

Lemma session_raises P :
  (∀ n, P (AttributeError n)) → (∀ m, P (TypeError m)) →
  raises_only P Service.session.
Proof.
  intros Ha Ht. unfold Service.session.
  apply raises_bind; [apply raises_getattr, Ha|intros st].
  apply raises_bind; [by apply token_raises|intros tok].
  apply raises_bind; [case_decide; raises_step|intros _].
  apply raises_bind; [apply raises_getattr, Ha|intros cur].
  apply raises_bind.
  { destruct (negb (attr_truthy cur)); [|apply raises_ret].
    apply raises_bind; [by apply build_session_raises|intros s].
    apply raises_bind; [apply raises_setattr|intros _].
    apply raises_bind; [by apply token_raises|intros tok'].
    apply raises_setattr. }
  intros _.
  apply raises_bind; [apply raises_getattr, Ha|intros cur'].
  destruct cur'; first [apply raises_ret|apply raises_raise, Ht].
Qed.

Lemma request_result_cases
    (s : Session) (method url : string) (kw : ReqKwargs) (st : State) :
  (∀ r, (WrappedSession.request s method url kw st).1 = Ok r →
        status_code r = 200 ∧ terminal_response s method url kw st = Some r) ∧
  (∀ e, (WrappedSession.request s method url kw st).1 = Raise e →
        (kind_of e ≠ Builtin ∧
         ∃ resp, terminal_response s method url kw st = Some resp ∧
                 status_code resp ≠ 200) ∨
        (s_base_url s = VNone ∧ ∃ msg, e = TypeError msg) ∨
        (terminal_response s method url kw st = None ∧ from_requests e = true)).
Proof.
  destruct (s_base_url s) as [|base] eqn:Hbase.
  - unfold WrappedSession.request. rewrite Hbase. cbn. split.
    + intros r E. discriminate E.
    + intros e E. right. left. split; [reflexivity|]. simplify_eq. by eexists.
  - destruct (terminal_response s method url kw st) as [resp|] eqn:Et.
    + rewrite (request_classify s base Hbase method url kw st resp Et).
      unfold WrappedSession.classify. split.
      * intros r. repeat case_decide; intros E; simplify_eq. by split.
      * intros e. repeat case_decide; intros E; simplify_eq; left;
          (split; [discriminate|]); by exists resp.
    + destruct (request_parent_raises s base Hbase method url kw st Et)
        as (e0 & E0 & Hf & _).
      rewrite E0. split.
      * intros r E. discriminate E.
      * intros e E. simplify_eq. right. right. by split.
Qed.

(** [request] hands back a response only when the parent class returned
    one with status 200, and then it is that response.  What it raises is
    one of the five kinds of the service, for a response the parent class
    returned with another status; or [TypeError], when the session has no
    [base_url]; or an exception of [requests] that the parent class raised
    instead of returning ([RetryError] when the retries are used up on a
    forcelisted status, [ConnectionError], a read timeout, or no adapter for
    the URL), which passes through unchanged. *)
Theorem request_outcomes
    (s : Session) (method url : string) (kw : ReqKwargs) (st : State) :
  (∀ r, (WrappedSession.request s method url kw st).1 = Ok r →
        status_code r = 200 ∧ terminal_response s method url kw st = Some r) ∧
  (∀ e, (WrappedSession.request s method url kw st).1 = Raise e →
        (kind_of e ≠ Builtin ∧
         ∃ resp, terminal_response s method url kw st = Some resp ∧
                 status_code resp ≠ 200) ∨
        (s_base_url s = VNone ∧ ∃ msg, e = TypeError msg) ∨
        (terminal_response s method url kw st = None ∧ from_requests e = true)).
Proof. apply request_result_cases. Qed.

(** The three ways of failing, and the one of returning, on the session
    [build_session] makes. *)
Lemma request_outcomes_examples :
  let get_on base status body :=
    let a := Service.session
               (Service.new (VStr base) VNone (Samples.world_answering status body)) in
    match a.1 with
    | Ok s => (WrappedSession.request s "GET" "/placetypes" Samples.no_kwargs a.2).1
    | Raise e => Raise e
    end in
  get_on "https://example.test" 200 "[]" = Ok {| status_code := 200; text := "[]" |} ∧
  get_on "https://example.test" 404 "" = Raise (NotFoundError "404 GET /placetypes") ∧
  get_on "https://example.test" 503 "down" =
    Raise (RetryError "too many error responses") ∧
  get_on "ftp://example.test" 200 "[]" =
    Raise (InvalidSchema "No connection adapters were found").
Proof. vm_compute. repeat split. Qed.

Lemma get_returns_200 s url kw :
  returns_only (λ r, status_code r = 200) (WrappedSession.get s url kw).
Proof.
  intros st r E. by apply (request_result_cases s "GET" url kw st).
Qed.

Lemma get_raises (P : exn → Prop) s url kw :
  (∀ e, kind_of e ≠ Builtin → P e) → (∀ m, P (TypeError m)) →
  (∀ e, from_requests e = true → P e) →
  raises_only P (WrappedSession.get s url kw).
Proof.
  intros Hk Ht Hf st e E.
  destruct (proj2 (request_result_cases s "GET" url kw st) e E)
    as [[H _]|[(_ & msg & ->)|[_ H]]]; [by apply Hk|apply Ht|by apply Hf].
Qed.

(** [r.json()] raises nothing but [ValueError]. *)
Lemma json_raises (P : exn → Prop) r :
  (∀ m, P (ValueError m)) → raises_only P (Places.json r).
Proof.
  intros Hv. unfold Places.json.
  apply raises_bind; [apply raises_get_world|intros w].
  destruct (json_loads w (text r)); [apply raises_ret|apply raises_raise, Hv].
Qed.

Lemma random_raises geom placetype :
  raises_only (λ e, ∀ msg, e ≠ RuntimeError msg) (Places.random geom placetype).
Proof.
  unfold Places.random. cbv zeta.
  apply raises_bind; [apply session_raises; intros; discriminate|intros s].
  apply raises_bind; [apply raises_getattr; intros; discriminate|intros u].
  apply (raises_bind_post _ (λ r, status_code r = 200)).
  - apply get_raises.
    + intros e H msg ->. by apply H.
    + intros; discriminate.
    + intros e H msg ->. discriminate H.
  - apply get_returns_200.
  - intros r Hr. rewrite decide_False by (intros H; by apply H).
    apply json_raises. intros; discriminate.
Qed.

(** [random] never raises the [RuntimeError] of its status check, in any
    state of the instance and against any server: by the time a response
    comes back from [get] its status is 200, every other status having been
    raised as an error of the service (or, by the parent class, as an error
    of [requests]), so the check after the call cannot fire. *)
Theorem random_status_check_is_dead (geom placetype : pyval) (st : State) :
  raised_RuntimeError (Places.random geom placetype st).1 = false.
Proof.
  destruct (Places.random geom placetype st).1 as [j|e] eqn:E; [reflexivity|].
  pose proof (random_raises geom placetype st e E) as H.
  destruct e; try reflexivity. by destruct (H msg).
Qed.

(** On an instance given a [url] attribute by hand, [random] gets as far as
    the server: a 500 is a [ServerError] and not the [RuntimeError] of the
    check, a 200 with a body that is not JSON a [ValueError], and a 200 with
    a JSON body is returned decoded. *)
Lemma random_with_url_examples :
  let random_on status body :=
    (Places.random VNone VNone
       (setattr "url" (AVal (VStr ""))
          (Places.new (VStr "http://example.test") VNone 10 600
             (Samples.world_answering status body))).2).1 in
  random_on 500 "boom" = Raise (ServerError "boom") ∧
  random_on 200 "<html>" = Raise (ValueError "No JSON object could be decoded") ∧
  random_on 200 "{}" = Ok (Decoded "{}").
Proof. vm_compute. repeat split. Qed.

(** ** Sessions are not kept per token *)

(** When the token changes and later returns to its earlier value, the
    session built for that value is not brought back: the access builds a
    third session, an object distinct from both earlier ones. *)
Theorem session_not_restored_when_token_returns (st : State) (t : pyval) :
  reachable st →
  t ≠ auth_token (world st) →
  let a1 := Service.session st in
  let a2 := Service.session (Service.token_setter t a1.2).2 in
  let a3 := Service.session
              (Service.token_setter (auth_token (world st)) a2.2).2 in
  ∃ s1 s2 s3, a1.1 = Ok s1 ∧ a2.1 = Ok s2 ∧ a3.1 = Ok s3 ∧
              s_id s3 ≠ s_id s1 ∧ s_id s3 ≠ s_id s2 ∧
              s_headers s3 !! "Authorization" = s_headers s1 !! "Authorization".
Proof.
  intros Hreach Ht a1 a2 a3. subst a1 a2 a3.
  pose proof (reachable_inv st Hreach) as Hinv.
  destruct (session_returned_matches st Hreach)
    as (s1 & st1 & E1 & _ & _ & Hauth1 & _).
  destruct (session_outcome st Hinv)
    as (s1' & st1' & E1' & Hinv1 & Hcur1 & Htok1 & Htk1 & _).
  rewrite E1 in E1'. apply pair_equal_spec in E1' as [Hs Hst].
  apply Ok_inj in Hs. subst s1' st1'.
  rewrite E1. cbn [fst snd].
  assert (reachable st1) as Hreach1.
  { replace st1 with (Service.session st).2 by (by rewrite E1). by apply reach_session. }
  assert (s_id s1 < next_id (world st1))%nat as Hlt1.
  { destruct (inv_session _ Hinv1) as [E|(s & E & Hlt & _)];
      rewrite Hcur1 in E; simplify_eq. exact Hlt. }
  (* the token is changed *)
  pose proof (reach_token t st1 Hreach1) as Hreach1'.
  rewrite (token_setter_eq t st1 Hinv1) in Hreach1' |- *. cbn [snd] in Hreach1' |- *.
  set (st1' := {| world := set_auth_token t (world st1); cls := cls st1;
                  self := self st1 |}) in *.
  pose proof (reachable_inv st1' Hreach1') as Hinv1'.
  destruct (session_outcome st1' Hinv1')
    as (s2 & st2 & E2 & Hinv2 & Hcur2 & Htok2 & Htk2 & _ & _ & _ & _ & _ & Hcase2).
  rewrite E2. cbn [fst snd].
  assert (s_id s2 = next_id (world st1) ∧ next_id (world st2) = S (next_id (world st1)))
    as [Hid2 Hn2].
  { destruct Hcase2 as [(_ & Hid & Hn & _)|(Hfresh & _)]; [by split|].
    exfalso. apply Hfresh. right. subst st1'. cbn [world self auth_token set_auth_token].
    rewrite Htok1. intros E. apply Ht. congruence. }
  assert (reachable st2) as Hreach2.
  { replace st2 with (Service.session st1').2 by (by rewrite E2). by apply reach_session. }
  (* the token returns *)
  pose proof (reach_token (auth_token (world st)) st2 Hreach2) as Hreach2'.
  rewrite (token_setter_eq _ st2 Hinv2) in Hreach2' |- *. cbn [snd] in Hreach2' |- *.
  set (st2' := {| world := set_auth_token (auth_token (world st)) (world st2);
                  cls := cls st2; self := self st2 |}) in *.
  pose proof (reachable_inv st2' Hreach2') as Hinv2'.
  destruct (session_returned_matches st2' Hreach2')
    as (s3 & st3 & E3 & _ & _ & Hauth3 & _).
  destruct (session_outcome st2' Hinv2')
    as (s3' & st3' & E3' & _ & _ & _ & _ & _ & _ & _ & _ & _ & Hcase3).
  rewrite E3 in E3'. apply pair_equal_spec in E3' as [Hs Hst].
  apply Ok_inj in Hs. subst s3' st3'.
  rewrite E3. cbn [fst].
  assert (s_id s3 = next_id (world st2)) as Hid3.
  { destruct Hcase3 as [(_ & Hid & _)|(Hfresh & _)]; [exact Hid|].
    exfalso. apply Hfresh. right. subst st2'. cbn [world self auth_token set_auth_token].
    rewrite Htok2. subst st1'. cbn [world auth_token set_auth_token].
    intros E. apply Ht. congruence. }
  exists s1, s2, s3. repeat (split; [reflexivity|]).
  split; [lia|]. split; [lia|].
  rewrite Hauth3, Hauth1. reflexivity.
Qed.

Lemma session_not_restored_when_token_returns_witness :
  let st := Places.new VNone VNone 10 600 Samples.world0 in
  let a1 := Service.session st in
  let a2 := Service.session (Service.token_setter (VStr "token-b") a1.2).2 in
  let a3 := Service.session (Service.token_setter (auth_token (world st)) a2.2).2 in
  ∃ s1 s2 s3, a1.1 = Ok s1 ∧ a2.1 = Ok s2 ∧ a3.1 = Ok s3 ∧
              s_id s3 ≠ s_id s1 ∧ s_id s3 ≠ s_id s2 ∧
              s_headers s3 !! "Authorization" = s_headers s1 !! "Authorization".
Proof.
  intros st.
  refine (session_not_restored_when_token_returns st (VStr "token-b")
            (reach_Places VNone VNone 10 600 Samples.world0) _).
  vm_compute. discriminate.
Defined.
